(** * An address-book assistant bot: model and verified properties

    Shallow embedding of [HN6_Bot_ADRES_BOOK_OOP.py]: the classes [Field],
    [Name], [Phone], [Record] and [AddressBook], the [input_error]
    decorator, [parse_input], the four command handlers and the command
    loop [main].

    Python objects are modelled by values and explicit state passing:
    a method that mutates [self] is a function from the old [self] to an
    outcome and the new [self]; an exception is an explicit [Raise]
    outcome, and the state reached when the exception was raised is kept
    (Python does not roll back mutations). *)

From Stdlib Require Import Bool List String Ascii NArith Arith Lia.
Import ListNotations.
Open Scope string_scope.

(** * Python built-ins used by the program *)

Module Py.

(** A Python [str] is modelled by a Rocq [string] whose characters are the
    Unicode code points U+0000 to U+00FF: the 8-bit [ascii] [c] stands for
    the code point [ord c].  The character classes below are those of
    CPython's Unicode database restricted to that range, which is closed
    under [str.lower]. *)

Definition ord (c : ascii) : N := N_of_ascii c.
Definition chr (n : N) : ascii := ascii_of_N n.

Definition between (lo hi n : N) : bool := ((lo <=? n) && (n <=? hi))%N.

(** Characters accepted by [str.isdigit] (Numeric_Type Decimal or Digit):
    '0'..'9' and the superscripts U+00B2, U+00B3, U+00B9. *)
Definition char_isdigit (c : ascii) : bool :=
  let n := ord c in
  (between 48 57 n || (n =? 178) || (n =? 179) || (n =? 185))%N.

(** Characters accepted by [str.isspace], which [str.strip] and
    [str.split] (without argument) treat as separators: U+0009..U+000D,
    U+001C..U+0020, U+0085 and U+00A0. *)
Definition char_isspace (c : ascii) : bool :=
  let n := ord c in
  (between 9 13 n || between 28 32 n || (n =? 133) || (n =? 160))%N.

(** [str.lower] on one character: 'A'..'Z' and U+00C0..U+00DE except the
    multiplication sign U+00D7 move up by 32. *)
Definition char_lower (c : ascii) : ascii :=
  let n := ord c in
  if (between 65 90 n || (between 192 222 n && negb (n =? 215)))%N
  then chr (n + 32) else c.

Fixpoint str_all (p : ascii -> bool) (s : string) : bool :=
  match s with
  | EmptyString => true
  | String c s' => p c && str_all p s'
  end.

(** [s.isdigit()]: every character is a digit and there is at least one. *)
Definition isdigit (s : string) : bool :=
  match s with
  | EmptyString => false
  | String _ _ => str_all char_isdigit s
  end.

Definition len (s : string) : nat := String.length s.

(** [s.lower()]. *)
Fixpoint lower (s : string) : string :=
  match s with
  | EmptyString => EmptyString
  | String c s' => String (char_lower c) (lower s')
  end.

Fixpoint lstrip (s : string) : string :=
  match s with
  | EmptyString => EmptyString
  | String c s' => if char_isspace c then lstrip s' else s
  end.

Fixpoint rstrip (s : string) : string :=
  match s with
  | EmptyString => EmptyString
  | String c s' =>
      match rstrip s' with
      | EmptyString => if char_isspace c then EmptyString else String c EmptyString
      | String d r => String c (String d r)
      end
  end.

(** [s.strip()]. *)
Definition strip (s : string) : string := rstrip (lstrip s).

(** [s.split()]: the maximal runs of non-whitespace characters, in order;
    no empty string is ever produced. *)
Fixpoint split (s : string) : list string :=
  match s with
  | EmptyString => []
  | String c s' =>
      if char_isspace c then split s'
      else match s' with
           | EmptyString => [String c EmptyString]
           | String d _ =>
               if char_isspace d then String c EmptyString :: split s'
               else match split s' with
                    | w :: ws => String c w :: ws
                    | [] => [String c EmptyString]
                    end
           end
  end.

(** [sep.join(xs)]. *)
Fixpoint join (sep : string) (xs : list string) : string :=
  match xs with
  | [] => EmptyString
  | [x] => x
  | x :: rest => x ++ sep ++ join sep rest
  end.

(** ** Insertion-ordered dictionaries with [str] keys

    A [dict] is the list of its items in insertion order.  Keys are
    unique in every dictionary Python can build ([dict_wf]). *)

Section Dict.
Context {V : Type}.

Definition dict : Type := list (string * V).

Definition dict_wf (d : dict) : Prop := NoDup (map fst d).

(** [d.get(k, None)]. *)
Fixpoint dict_get (k : string) (d : dict) : option V :=
  match d with
  | [] => None
  | (k', v) :: d' => if String.eqb k' k then Some v else dict_get k d'
  end.

(** [k in d]. *)
Definition dict_contains (k : string) (d : dict) : bool :=
  match dict_get k d with Some _ => true | None => false end.

(** [d[k] = v]: an existing key keeps its position, a new one goes last. *)
Fixpoint dict_setitem (k : string) (v : V) (d : dict) : dict :=
  match d with
  | [] => [(k, v)]
  | (k', v') :: d' =>
      if String.eqb k' k then (k', v) :: d' else (k', v') :: dict_setitem k v d'
  end.

(** [del d[k]], for a key that is present. *)
Fixpoint dict_delitem (k : string) (d : dict) : dict :=
  match d with
  | [] => []
  | (k', v') :: d' =>
      if String.eqb k' k then d' else (k', v') :: dict_delitem k d'
  end.

(** [d.values()], in iteration order. *)
Definition dict_values (d : dict) : list V := map snd d.

(** [len(d)]. *)
Definition dict_len (d : dict) : nat := List.length d.
End Dict.

Arguments dict V : clear implicits.

End Py.

(** * Exceptions and the exception-state monad *)

Inductive exn : Type :=
| ValueError (msg : string)
| KeyError (msg : string)
| IndexError (msg : string)
| EOFError.

Inductive res (A : Type) : Type :=
| Ok (a : A)
| Raise (e : exn).

Arguments Ok {A} a.
Arguments Raise {A} e.

(** A computation over a mutable object of type [S]: it returns a value
    or raises, and in both cases leaves the object in some state. *)
Definition M (S A : Type) : Type := S -> res A * S.

Definition ret {S A} (a : A) : M S A := fun s => (Ok a, s).
Definition raise {S A} (e : exn) : M S A := fun s => (Raise e, s).
Definition lift {S A} (r : res A) : M S A := fun s => (r, s).
Definition get {S} : M S S := fun s => (Ok s, s).
Definition put {S} (s : S) : M S unit := fun _ => (Ok tt, s).

Definition bind {S A B} (m : M S A) (k : A -> M S B) : M S B :=
  fun s =>
    match m s with
    | (Ok a, s') => k a s'
    | (Raise e, s') => (Raise e, s')
    end.

Notation "x <- m ;; k" := (bind m (fun x => k))
  (at level 61, m at next level, right associativity).
Notation "m ;;; k" := (bind m (fun _ => k))
  (at level 61, right associativity).

(** * The value classes [Field], [Name], [Phone] *)

(** [Name] and [Phone] inherit their only attribute, [value], from
    [Field]; they differ in what their constructors accept. *)
Record Field : Type := mkField { value : string }.

Abbreviation Name := Field (only parsing).
Abbreviation Phone := Field (only parsing).

(** [Field.__str__]. *)
Definition Field_str (self : Field) : string := value self.

(** [Name.__init__]: [not value] holds of the empty string only. *)
Definition Name_init (v : string) : res Name :=
  match v with
  | EmptyString => Raise (ValueError "Name cannot be empty")
  | String _ _ => Ok (mkField v)
  end.

(** [Phone.validate_phone]. *)
Definition validate_phone (phone : string) : bool :=
  Py.isdigit phone && Nat.eqb (Py.len phone) 10.

(** [Phone.__init__]. *)
Definition Phone_init (v : string) : res Phone :=
  if negb (validate_phone v)
  then Raise (ValueError "Phone number must be 10 digits")
  else Ok (mkField v).

(** * The class [Record] *)

Record ContactRecord : Type := mkRecord { name : Name; phones : list Phone }.

(** [Record.__init__]. *)
Definition Record_init (nm : string) : res ContactRecord :=
  match Name_init nm with
  | Ok n => Ok (mkRecord n [])
  | Raise e => Raise e
  end.

(** Equality of two [Field] objects as [list.remove] sees it.  [Field]
    defines no [__eq__], so Python compares object identities; every
    [Phone] in a record is a distinct object created by [add_phone] and
    never mutated, and the object handed to [list.remove] is the one
    [find_phone] returned, that is the first of the list with that
    value: on the list of values, identity and equality of [value]
    select the same element. *)
Definition Field_eqb (a b : Field) : bool := String.eqb (value a) (value b).

(** [l.remove(x)]: drops the first element equal to [x], and raises
    [ValueError] when there is none. *)
Fixpoint list_remove (x : Field) (l : list Field) : res (list Field) :=
  match l with
  | [] => Raise (ValueError "list.remove(x): x not in list")
  | y :: l' =>
      if Field_eqb y x then Ok l'
      else match list_remove x l' with
           | Ok r => Ok (y :: r)
           | Raise e => Raise e
           end
  end.

(** [Record.find_phone]: the first phone whose value is [phone], or
    [None]. *)
Fixpoint find_phone_in (phone : string) (l : list Phone) : option Phone :=
  match l with
  | [] => None
  | phone_obj :: l' =>
      if String.eqb (value phone_obj) phone then Some phone_obj
      else find_phone_in phone l'
  end.

Definition find_phone (phone : string) (self : ContactRecord) : option Phone :=
  find_phone_in phone (phones self).

(** [Record.add_phone]: the constructor may raise, before any append. *)
Definition add_phone (phone : string) : M ContactRecord unit :=
  p <- lift (Phone_init phone) ;;
  self <- get ;;
  put (mkRecord (name self) (phones self ++ [p])).

(** [Record.remove_phone]. *)
Definition remove_phone (phone : string) : M ContactRecord unit :=
  self <- get ;;
  match find_phone phone self with
  | Some phone_obj =>
      l <- lift (list_remove phone_obj (phones self)) ;;
      put (mkRecord (name self) l)
  | None => raise (ValueError "Phone number not found")
  end.

(** [Record.edit_phone]. *)
Definition edit_phone (old_phone new_phone : string) : M ContactRecord unit :=
  self <- get ;;
  match find_phone old_phone self with
  | Some _ => remove_phone old_phone ;;; add_phone new_phone
  | None => raise (ValueError "Old phone number not found")
  end.

(** [Record.__str__]. *)
Definition Record_str (self : ContactRecord) : string :=
  let phones_str := Py.join "; " (map value (phones self)) in
  "Contact name: " ++ value (name self) ++ ", phones: " ++ phones_str.

(** * The class [AddressBook] *)

(** The [data] attribute of the [UserDict]. *)
Definition AddressBook : Type := Py.dict ContactRecord.

(** [AddressBook.add_record]. *)
Definition add_record (record : ContactRecord) (data : AddressBook) : AddressBook :=
  Py.dict_setitem (value (name record)) record data.

(** [AddressBook.find]. *)
Definition find (nm : string) (data : AddressBook) : option ContactRecord :=
  Py.dict_get nm data.

(** [AddressBook.delete]. *)
Definition delete (nm : string) : M AddressBook unit :=
  fun data =>
    if Py.dict_contains nm data
    then (Ok tt, Py.dict_delitem nm data)
    else (Raise (ValueError "Record not found"), data).

(** [AddressBook.__str__]; the newline is the character U+000A. *)
Definition newline : string := String (Py.chr 10) EmptyString.

Definition AddressBook_str (data : AddressBook) : string :=
  Py.join newline (map Record_str (Py.dict_values data)).

(** * The command layer *)

(** [input_error]: the decorated function turns the three exception
    classes it names into messages and lets any other exception through.
    [str(e)] of a [ValueError] built from one string is that string. *)
Definition input_error {S} (func : M S string) : M S string :=
  fun s =>
    match func s with
    | (Ok r, s') => (Ok r, s')
    | (Raise (KeyError _), s') => (Ok "Error: Contact not found.", s')
    | (Raise (ValueError e), s') => (Ok ("Error: " ++ e), s')
    | (Raise (IndexError _), s') => (Ok "Error: Invalid command format.", s')
    | (Raise EOFError, s') => (Raise EOFError, s')
    end.

(** [parse_input]: [cmd, *args = ...] needs at least one word and raises
    [ValueError] on an empty list. *)
Definition parse_input (user_input : string) : res (string * list string) :=
  match Py.split (Py.lower (Py.strip user_input)) with
  | cmd :: args => Ok (cmd, args)
  | [] => Raise (ValueError "not enough values to unpack (expected at least 1, got 0)")
  end.

(** The function under [@input_error] in [add_contact].  The record is
    a local object until [add_record] stores it. *)
Definition add_contact_func (args : list string) : M AddressBook string :=
  match args with
  | [nm; phone] =>
      contacts <- get ;;
      match find nm contacts with
      | Some _ => raise (ValueError "Contact already exists.")
      | None =>
          record <- lift (Record_init nm) ;;
          match add_phone phone record with
          | (Ok _, record') =>
              put (add_record record' contacts) ;;; ret "Contact added."
          | (Raise e, _) => raise e
          end
      end
  | _ => raise (ValueError "Command requires exactly 2 arguments (name and phone).")
  end.

Definition add_contact (args : list string) : M AddressBook string :=
  input_error (add_contact_func args).

(** The function under [@input_error] in [change_contact].  [record] is
    the very object held by the directory under [nm], so what
    [edit_phone] does to it is seen in the directory whether or not
    [edit_phone] raises: the entry of [nm] is replaced in place. *)
Definition change_contact_func (args : list string) : M AddressBook string :=
  match args with
  | [nm; new_phone] =>
      contacts <- get ;;
      match find nm contacts with
      | Some record =>
          match phones record with
          | [] => raise (IndexError "list index out of range")
          | first :: _ =>
              let old_phone := value first in
              let (r, record') := edit_phone old_phone new_phone record in
              put (Py.dict_setitem nm record' contacts) ;;;
              lift r ;;;
              ret "Contact updated."
          end
      | None => raise (KeyError "Contact not found.")
      end
  | _ => raise (ValueError "Command requires exactly 2 arguments (name and new phone).")
  end.

Definition change_contact (args : list string) : M AddressBook string :=
  input_error (change_contact_func args).

(** The function under [@input_error] in [show_phone]. *)
Definition show_phone_func (args : list string) : M AddressBook string :=
  match args with
  | [nm] =>
      contacts <- get ;;
      match find nm contacts with
      | Some record => ret (nm ++ ": " ++ Py.join ", " (map value (phones record)))
      | None => raise (KeyError "Contact not found.")
      end
  | _ => raise (IndexError "Command requires exactly 1 argument (name).")
  end.

Definition show_phone (args : list string) : M AddressBook string :=
  input_error (show_phone_func args).

(** The function under [@input_error] in [show_all]; a [UserDict] is
    true when it is not empty. *)
Definition show_all_func : M AddressBook string :=
  contacts <- get ;;
  match Py.dict_len contacts with
  | O => ret "No contacts found."
  | S _ => ret (AddressBook_str contacts)
  end.

Definition show_all : M AddressBook string := input_error show_all_func.

(** ** The loop of [main] *)

(** What one turn of the [while True] loop does with the line it read. *)
Inductive turn : Type :=
| Continue (printed : string) (contacts : AddressBook)
| Break (printed : string) (contacts : AddressBook)
| Uncaught (e : exn) (contacts : AddressBook).

Definition print_result (r : res string * AddressBook) : turn :=
  match r with
  | (Ok msg, contacts) => Continue msg contacts
  | (Raise e, contacts) => Uncaught e contacts
  end.

Definition main_turn (user_input : string) (contacts : AddressBook) : turn :=
  match parse_input user_input with
  | Raise e => Uncaught e contacts
  | Ok (command, args) =>
      if String.eqb command "close" || String.eqb command "exit"
      then Break "Good bye!" contacts
      else if String.eqb command "hello"
      then Continue "How can I help you?" contacts
      else if String.eqb command "add" then print_result (add_contact args contacts)
      else if String.eqb command "change" then print_result (change_contact args contacts)
      else if String.eqb command "phone" then print_result (show_phone args contacts)
      else if String.eqb command "all" then print_result (show_all contacts)
      else if String.eqb command "help"
      then Continue "Available commands: hello, add, change, phone, all, close, exit" contacts
      else Continue "Invalid command. Type 'help' to see the list of available commands." contacts
  end.

(** How the process ends: the loop was left by [break], or an exception
    reached the top level. *)
Inductive ending : Type :=
| Exited
| Crashed (e : exn).

(** The loop over the lines that [input] will deliver; [input] raises
    [EOFError] when there is none left. *)
Fixpoint main_loop (stdin : list string) (contacts : AddressBook) : list string * ending :=
  match stdin with
  | [] => ([], Crashed EOFError)
  | user_input :: rest =>
      match main_turn user_input contacts with
      | Continue msg contacts' =>
          let (out, e) := main_loop rest contacts' in (msg :: out, e)
      | Break msg _ => ([msg], Exited)
      | Uncaught e _ => ([], Crashed e)
      end
  end.

(** [main]: the printed lines and how the process ended. *)
Definition main (stdin : list string) : list string * ending :=
  let (out, e) := main_loop stdin [] in
  ("Welcome to the assistant bot!" :: out, e).

(** * Vocabulary of the statements *)

(** The decimal digits '0'..'9'. *)
Definition decimal_digit (c : ascii) : Prop := (48 <= Py.ord c <= 57)%N.

(** The digits of [str.isdigit] in the modelled range: the decimal digits
    and the superscripts two, three and one. *)
Definition unicode_digit (c : ascii) : Prop :=
  decimal_digit c \/ Py.ord c = 178%N \/ Py.ord c = 179%N \/ Py.ord c = 185%N.

Definition chars (s : string) : list ascii := list_ascii_of_string s.

(** A string of ten characters U+00B2 (superscript two). *)
Definition superscript_two : ascii := Py.chr 178.
Definition ten_superscript_twos : string :=
  string_of_list_ascii (repeat superscript_two 10).

(** Some phone of the list has the value [s]. *)
Definition has_phone (s : string) (l : list Phone) : Prop :=
  exists p, In p l /\ value p = s.

(** The keys of a dictionary, in iteration order. *)
Definition keys {V} (d : Py.dict V) : list string := map fst d.

(** The invariant of the directory: every record is stored under its own
    name. *)
Definition key_is_name (d : AddressBook) : Prop :=
  forall k r, In (k, r) d -> k = value (name r).

(** The documented operations of the directory, and the directory each
    leaves behind: [find] only reads, and a [delete] that raises leaves
    what it found. *)
Inductive operation : Type :=
| Add_record (record : ContactRecord)
| Find (nm : string)
| Delete (nm : string).

Definition apply_operation (d : AddressBook) (o : operation) : AddressBook :=
  match o with
  | Add_record record => add_record record d
  | Find nm => let _ := find nm d in d
  | Delete nm => snd (delete nm d)
  end.

Definition run_operations (ops : list operation) : AddressBook :=
  fold_left apply_operation ops [].

(** The text [sub] occurs in [s]. *)
Definition contains_text (sub s : string) : Prop :=
  exists pre post, s = pre ++ sub ++ post.

(** The rendering rule in the specification's words: the items in order,
    each one after the first preceded by the separator. *)
Fixpoint spec_joined_rest (sep : string) (xs : list string) : string :=
  match xs with
  | [] => EmptyString
  | x :: rest => sep ++ x ++ spec_joined_rest sep rest
  end.

Definition spec_joined (sep : string) (xs : list string) : string :=
  match xs with
  | [] => EmptyString
  | x :: rest => x ++ spec_joined_rest sep rest
  end.

(** The records of a directory in iteration order. *)
Definition records (d : AddressBook) : list ContactRecord := map snd d.

(** The string is empty or begins with a whitespace character. *)
Definition starts_blank (s : string) : bool :=
  match s with
  | EmptyString => true
  | String d _ => Py.char_isspace d
  end.

(** The message of the exception raised by [cmd, *args = []]. *)
Definition unpack_message : string :=
  "not enough values to unpack (expected at least 1, got 0)".

Ltac each_char c := destruct c as [[] [] [] [] [] [] [] []].

(** The computation never raises [EOFError], the one exception of the
    model that [input_error] lets through. *)
Definition never_eof {S A} (m : M S A) : Prop :=
  forall s, fst (m s) <> Raise EOFError.

(** Every phone of the record passes [Phone.validate_phone]. *)
Definition phones_valid (r : ContactRecord) : Prop :=
  Forall (fun p => validate_phone (value p) = true) (phones r).

(** What the command loop maintains of the directory: unique keys, every
    record under its own name, and every record with valid phones, at most
    one of them. *)
Definition book_inv (d : AddressBook) : Prop :=
  Py.dict_wf d /\ key_is_name d /\
  forall k r, In (k, r) d -> phones_valid r /\ List.length (phones r) <= 1.

(** A word: not empty and without whitespace. *)
Definition is_word (s : string) : Prop :=
  s <> EmptyString /\ Py.str_all (fun c => negb (Py.char_isspace c)) s = true.

(** The directory a turn of the loop leaves. *)
Definition turn_contacts (t : turn) : AddressBook :=
  match t with
  | Continue _ contacts => contacts
  | Break _ contacts => contacts
  | Uncaught _ contacts => contacts
  end.

(** * Characters and strings *)

Lemma char_isdigit_iff c : Py.char_isdigit c = true <-> unicode_digit c.
Proof.
  unfold Py.char_isdigit, unicode_digit, decimal_digit, Py.between.
  rewrite !orb_true_iff, andb_true_iff, !N.leb_le, !N.eqb_eq.
  tauto.
Qed.

Lemma str_all_iff p s :
  Py.str_all p s = true <-> Forall (fun c => p c = true) (chars s).
Proof.
  induction s as [|c s IH]; simpl.
  - split; [constructor | reflexivity].
  - rewrite andb_true_iff, IH. split.
    + intros [Hc Hs]. now constructor.
    + intros H. inversion H; subst. now split.
Qed.

Lemma isdigit_iff s :
  Py.isdigit s = true <-> s <> EmptyString /\ Forall unicode_digit (chars s).
Proof.
  unfold Py.isdigit. destruct s as [|c s].
  - split; [discriminate | intros [H _]; now contradiction H].
  - rewrite str_all_iff. split.
    + intros H. split; [discriminate |].
      eapply Forall_impl; [| exact H]. intros a. apply char_isdigit_iff.
    + intros [_ H]. eapply Forall_impl; [| exact H]. intros a. apply char_isdigit_iff.
Qed.

Lemma validate_phone_iff s :
  validate_phone s = true <-> String.length s = 10 /\ Forall unicode_digit (chars s).
Proof.
  unfold validate_phone, Py.len.
  rewrite andb_true_iff, isdigit_iff, Nat.eqb_eq. split.
  - intros [[_ H] L]. now split.
  - intros [L H]. repeat split; trivial. intros ->. discriminate L.
Qed.

(** * [Phone]: what the constructor accepts *)

(** What [Phone.__init__] accepts: it succeeds, keeping its argument
    verbatim, exactly on the strings of ten characters that [str.isdigit]
    accepts, among them every string of ten decimal digits; on any other
    string it raises [ValueError] ([Phone number must be 10 digits]).
    Nothing is stripped or normalised, and the outcome is a function of
    the argument. *)
Lemma Phone_init_correct :
  forall s : string,
    (Phone_init s = Ok (mkField s) <->
       String.length s = 10 /\ Forall unicode_digit (chars s)) /\
    (Phone_init s = Ok (mkField s) \/
       Phone_init s = Raise (ValueError "Phone number must be 10 digits")) /\
    (String.length s = 10 /\ Forall decimal_digit (chars s) ->
       Phone_init s = Ok (mkField s)).
Proof.
  intros s.
  assert (E : Phone_init s = Ok (mkField s) <-> validate_phone s = true).
  { unfold Phone_init. destruct (validate_phone s); simpl; split;
      intros; congruence. }
  split; [| split].
  - rewrite E. apply validate_phone_iff.
  - unfold Phone_init. destruct (validate_phone s); simpl; auto.
  - intros [L H]. apply E, validate_phone_iff. split; [exact L |].
    eapply Forall_impl; [| exact H]. intros a Ha. now left.
Qed.

(** C1 fails on the code: [Phone.__init__] accepts the string of ten
    superscript twos (U+00B2), none of whose characters is one of the
    decimal digits '0'..'9', because [str.isdigit] holds of it; the [add]
    command stores it as a phone number. *)
Theorem Phone_init_accepts_superscript_digits :
  Phone_init ten_superscript_twos = Ok (mkField ten_superscript_twos) /\
  String.length ten_superscript_twos = 10 /\
  Forall (fun c => ~ decimal_digit c) (chars ten_superscript_twos) /\
  main_turn ("add john " ++ ten_superscript_twos) [] =
    Continue "Contact added."
      [("john", mkRecord (mkField "john") [mkField ten_superscript_twos])].
Proof.
  split; [reflexivity |]. split; [reflexivity |]. split; [| reflexivity].
  unfold ten_superscript_twos, chars. rewrite list_ascii_of_string_of_list_ascii.
  apply Forall_forall. intros c Hc. apply repeat_spec in Hc. subst c.
  unfold decimal_digit. vm_compute. intros [_ H]. now apply H.
Qed.

(** * [Record]: finding, removing and editing phones *)

Lemma find_phone_in_none s l :
  find_phone_in s l = None <-> ~ has_phone s l.
Proof.
  unfold has_phone. induction l as [|q l IH]; simpl.
  - split; [intros _ [p [[] _]] | reflexivity].
  - destruct (String.eqb_spec (value q) s) as [E|N].
    + split; [discriminate |]. intros H. exfalso. apply H. exists q. auto.
    + rewrite IH. split.
      * intros H [p [[<- | Hin] Hp]]; [now apply N | apply H; eauto].
      * intros H [p [Hin Hp]]. apply H. eauto.
Qed.

(** A list holding the value [s] splits at the first phone with that
    value. *)
Lemma has_phone_first s l :
  has_phone s l ->
  exists l1 p l2, l = (l1 ++ p :: l2)%list /\ value p = s /\ ~ has_phone s l1.
Proof.
  induction l as [|q l IH]; intros H.
  - destruct H as [p [[] _]].
  - destruct (String.eqb_spec (value q) s) as [E|N].
    + exists [], q, l. repeat split; trivial. intros [p [[] _]].
    + destruct IH as (l1 & p & l2 & -> & Hp & Hl1).
      { destruct H as [p [[<- | Hin] Hp]]; [now contradiction N | exists p; auto]. }
      exists (q :: l1), p, l2. repeat split; trivial.
      intros [p' [[<- | Hin] Hp']]; [now apply N | apply Hl1; exists p'; auto].
Qed.

Lemma find_phone_in_first s l1 p l2 :
  value p = s -> ~ has_phone s l1 ->
  find_phone_in s (l1 ++ p :: l2)%list = Some p.
Proof.
  intros Hp. induction l1 as [|q l1 IH]; intros Hl1; simpl.
  - rewrite Hp, String.eqb_refl. reflexivity.
  - destruct (String.eqb_spec (value q) s) as [E|N].
    + exfalso. apply Hl1. exists q. simpl. auto.
    + apply IH. intros [p' [Hin Hp']]. apply Hl1. exists p'. simpl. auto.
Qed.

Lemma list_remove_first s l1 p l2 :
  value p = s -> ~ has_phone s l1 ->
  list_remove p (l1 ++ p :: l2)%list = Ok (l1 ++ l2)%list.
Proof.
  intros Hp. induction l1 as [|q l1 IH]; intros Hl1; simpl.
  - unfold Field_eqb. rewrite String.eqb_refl. reflexivity.
  - unfold Field_eqb at 1. rewrite Hp.
    destruct (String.eqb_spec (value q) s) as [E|N].
    + exfalso. apply Hl1. exists q. simpl. auto.
    + rewrite IH; [reflexivity |].
      intros [p' [Hin Hp']]. apply Hl1. exists p'. simpl. auto.
Qed.

Lemma has_phone_app s l1 l2 :
  has_phone s (l1 ++ l2)%list <-> has_phone s l1 \/ has_phone s l2.
Proof.
  unfold has_phone. split.
  - intros [p [Hin Hp]]. apply in_app_or in Hin. destruct Hin; [left | right]; eauto.
  - intros [[p [Hin Hp]] | [p [Hin Hp]]]; exists p; split; trivial;
      apply in_or_app; auto.
Qed.

Lemma remove_phone_absent r s :
  ~ has_phone s (phones r) ->
  remove_phone s r = (Raise (ValueError "Phone number not found"), r).
Proof.
  intros H. apply find_phone_in_none in H.
  unfold remove_phone, bind, get, find_phone. rewrite H. reflexivity.
Qed.

Lemma remove_phone_first r s l1 p l2 :
  phones r = (l1 ++ p :: l2)%list -> value p = s -> ~ has_phone s l1 ->
  remove_phone s r = (Ok tt, mkRecord (name r) (l1 ++ l2)%list).
Proof.
  intros Hr Hp Hl1.
  unfold remove_phone, bind, get, find_phone, lift, put. cbv beta iota.
  rewrite Hr, (find_phone_in_first s l1 p l2 Hp Hl1).
  rewrite (list_remove_first s l1 p l2 Hp Hl1). reflexivity.
Qed.

Lemma add_phone_invalid r new :
  validate_phone new = false ->
  add_phone new r = (Raise (ValueError "Phone number must be 10 digits"), r).
Proof.
  intros H. unfold add_phone, bind, lift, Phone_init. rewrite H. reflexivity.
Qed.

Lemma edit_phone_first_invalid r old new l1 p l2 :
  phones r = (l1 ++ p :: l2)%list -> value p = old -> ~ has_phone old l1 ->
  validate_phone new = false ->
  edit_phone old new r =
    (Raise (ValueError "Phone number must be 10 digits"), mkRecord (name r) (l1 ++ l2)%list).
Proof.
  intros Hr Hp Hl1 Hnew.
  unfold edit_phone, bind at 1, get, find_phone. cbv beta iota.
  rewrite Hr, (find_phone_in_first old l1 p l2 Hp Hl1).
  unfold bind. rewrite (remove_phone_first r old l1 p l2 Hr Hp Hl1).
  cbv beta iota. now apply add_phone_invalid.
Qed.

(** C7: when no phone of the record has the value [s], [remove_phone]
    raises [ValueError] ([Phone number not found]) and leaves the record
    as it was; otherwise it succeeds and drops exactly the first phone, in
    list order, whose value is [s]. *)
Theorem remove_phone_correct :
  forall (r : ContactRecord) (s : string),
    (~ has_phone s (phones r) ->
       remove_phone s r = (Raise (ValueError "Phone number not found"), r)) /\
    (has_phone s (phones r) ->
       exists l1 p l2,
         phones r = (l1 ++ p :: l2)%list /\ value p = s /\ ~ has_phone s l1 /\
         remove_phone s r = (Ok tt, mkRecord (name r) (l1 ++ l2)%list)).
Proof.
  intros r s. split.
  - apply remove_phone_absent.
  - intros H. destruct (has_phone_first s (phones r) H) as (l1 & p & l2 & Hr & Hp & Hl1).
    exists l1, p, l2. repeat split; trivial.
    now apply remove_phone_first with (p := p).
Qed.

Lemma remove_phone_correct_witness :
  remove_phone "0000000000" (mkRecord (mkField "john") [mkField "1234567890"]) =
    (Raise (ValueError "Phone number not found"),
     mkRecord (mkField "john") [mkField "1234567890"]).
Proof.
  apply (proj1 (remove_phone_correct
                  (mkRecord (mkField "john") [mkField "1234567890"]) "0000000000")).
  intros [p [[<- | []] Hp]]. discriminate Hp.
Defined.

(** C2, as stated, fails: a record built by adding the same number twice
    still holds that number after an edit whose new phone is invalid. *)
Lemma edit_phone_duplicate_counterexample :
  let old := "1234567890" in
  let r := mkRecord (mkField "john") [mkField old; mkField old] in
  (add_phone old ;;; add_phone old) (mkRecord (mkField "john") []) = (Ok tt, r) /\
  has_phone old (phones r) /\
  validate_phone "12345" = false /\
  edit_phone old "12345" r =
    (Raise (ValueError "Phone number must be 10 digits"),
     mkRecord (mkField "john") [mkField old]) /\
  has_phone old (phones (snd (edit_phone old "12345" r))).
Proof.
  cbv zeta. repeat split.
  - exists (mkField "1234567890"). simpl. auto.
  - exists (mkField "1234567890"). simpl. auto.
Qed.

(** C2, amended: when the record holds a phone equal to [old] and [new]
    fails validation, [edit_phone old new] raises [ValueError] ([Phone
    number must be 10 digits]) after it has removed the first phone equal
    to [old], which is not put back; the record then holds [old] only if
    it held a second copy of it. *)
Theorem edit_phone_invalid_new :
  forall (r : ContactRecord) (old new : string),
    has_phone old (phones r) ->
    validate_phone new = false ->
    exists l1 p l2,
      phones r = (l1 ++ p :: l2)%list /\ value p = old /\ ~ has_phone old l1 /\
      edit_phone old new r =
        (Raise (ValueError "Phone number must be 10 digits"),
         mkRecord (name r) (l1 ++ l2)%list) /\
      (has_phone old (phones (snd (edit_phone old new r))) <-> has_phone old l2).
Proof.
  intros r old new H Hnew.
  destruct (has_phone_first old (phones r) H) as (l1 & p & l2 & Hr & Hp & Hl1).
  exists l1, p, l2.
  assert (E := edit_phone_first_invalid r old new l1 p l2 Hr Hp Hl1 Hnew).
  repeat split; trivial; rewrite E; simpl; rewrite has_phone_app; tauto.
Qed.

Lemma edit_phone_invalid_new_witness :
  exists l1 p l2,
    [mkField "1234567890"; mkField "5555555555"] = (l1 ++ p :: l2)%list /\
    value p = "1234567890" /\ ~ has_phone "1234567890" l1 /\
    edit_phone "1234567890" "12-34"
      (mkRecord (mkField "john") [mkField "1234567890"; mkField "5555555555"]) =
      (Raise (ValueError "Phone number must be 10 digits"),
       mkRecord (mkField "john") (l1 ++ l2)%list) /\
    (has_phone "1234567890"
       (phones (snd (edit_phone "1234567890" "12-34"
          (mkRecord (mkField "john") [mkField "1234567890"; mkField "5555555555"]))))
     <-> has_phone "1234567890" l2).
Proof.
  apply (edit_phone_invalid_new
           (mkRecord (mkField "john") [mkField "1234567890"; mkField "5555555555"])
           "1234567890" "12-34").
  - exists (mkField "1234567890"). simpl. auto.
  - reflexivity.
Defined.

(** * Dictionaries *)

Section DictFacts.
Context {V : Type}.
Implicit Types (d : Py.dict V) (k : string) (v : V).

Lemma dict_get_none d k : Py.dict_get k d = None <-> ~ In k (keys d).
Proof.
  induction d as [|[k' v'] d IH]; simpl.
  - tauto.
  - destruct (String.eqb_spec k' k) as [E|N].
    + split; [discriminate | intros H; exfalso; apply H; now left].
    + rewrite IH. tauto.
Qed.

Lemma dict_get_in d k v : Py.dict_get k d = Some v -> In (k, v) d.
Proof.
  induction d as [|[k' v'] d IH]; simpl; [discriminate |].
  destruct (String.eqb_spec k' k) as [E|N].
  - intros [= ->]. subst. now left.
  - intros H. right. now apply IH.
Qed.

Lemma dict_get_setitem_eq d k v : Py.dict_get k (Py.dict_setitem k v d) = Some v.
Proof.
  induction d as [|[k' v'] d IH]; simpl.
  - now rewrite String.eqb_refl.
  - destruct (String.eqb_spec k' k) as [E|N]; simpl.
    + subst. now rewrite String.eqb_refl.
    + apply String.eqb_neq in N. now rewrite N.
Qed.

Lemma dict_get_setitem_ne d k k' v :
  k' <> k -> Py.dict_get k' (Py.dict_setitem k v d) = Py.dict_get k' d.
Proof.
  intros Hne. induction d as [|[k0 v0] d IH]; simpl.
  - apply not_eq_sym, String.eqb_neq in Hne. now rewrite Hne.
  - destruct (String.eqb_spec k0 k) as [E|N]; simpl.
    + subst. apply not_eq_sym, String.eqb_neq in Hne. now rewrite Hne.
    + now rewrite IH.
Qed.

Lemma in_dict_setitem d k v k' v' :
  In (k', v') (Py.dict_setitem k v d) -> (k', v') = (k, v) \/ In (k', v') d.
Proof.
  induction d as [|[k0 v0] d IH]; simpl.
  - intros [H | []]. now left.
  - destruct (String.eqb_spec k0 k) as [E|N]; simpl.
    + subst. intros [H | H]; auto.
    + intros [H | H]; auto. destruct (IH H); auto.
Qed.

Lemma keys_setitem_present d k v :
  In k (keys d) -> keys (Py.dict_setitem k v d) = keys d.
Proof.
  induction d as [|[k0 v0] d IH]; simpl; [tauto |].
  destruct (String.eqb_spec k0 k) as [E|N]; simpl; [reflexivity |].
  intros [H | H]; [contradiction | now rewrite IH].
Qed.

Lemma keys_setitem_absent d k v :
  ~ In k (keys d) -> keys (Py.dict_setitem k v d) = (keys d ++ [k])%list.
Proof.
  induction d as [|[k0 v0] d IH]; simpl; [reflexivity |].
  destruct (String.eqb_spec k0 k) as [E|N]; simpl; [tauto |].
  intros H. rewrite IH; tauto.
Qed.

Lemma dict_wf_setitem d k v : Py.dict_wf d -> Py.dict_wf (Py.dict_setitem k v d).
Proof.
  unfold Py.dict_wf. intros Hwf. fold (keys d) in Hwf. fold (keys (Py.dict_setitem k v d)).
  destruct (in_dec string_dec k (keys d)) as [Hin|Hout].
  - now rewrite keys_setitem_present.
  - rewrite keys_setitem_absent by assumption.
    apply NoDup_app; [assumption | repeat constructor; simpl; tauto |].
    intros x Hx [<- | []]. contradiction.
Qed.

(** A key that is present splits the dictionary at its first item, which
    is the one [del] drops. *)
Lemma dict_delitem_split d k :
  In k (keys d) ->
  exists l1 v l2,
    d = (l1 ++ (k, v) :: l2)%list /\ ~ In k (keys l1) /\
    Py.dict_delitem k d = (l1 ++ l2)%list.
Proof.
  induction d as [|[k0 v0] d IH]; simpl; [tauto |].
  destruct (String.eqb_spec k0 k) as [E|N].
  - intros _. subst. exists [], v0, d. simpl. tauto.
  - intros [H | H]; [contradiction |].
    destruct (IH H) as (l1 & v & l2 & -> & Hl1 & E).
    exists ((k0, v0) :: l1), v, l2. simpl. rewrite E. repeat split; tauto.
Qed.

Lemma dict_delitem_absent d k : ~ In k (keys d) -> Py.dict_delitem k d = d.
Proof.
  induction d as [|[k0 v0] d IH]; simpl; [reflexivity |].
  destruct (String.eqb_spec k0 k) as [E|N]; [tauto |].
  intros H. rewrite IH; tauto.
Qed.

Lemma in_dict_delitem d k x : In x (Py.dict_delitem k d) -> In x d.
Proof.
  induction d as [|[k0 v0] d IH]; simpl; [tauto |].
  destruct (String.eqb_spec k0 k) as [E|N]; simpl; [auto |].
  intros [H | H]; auto.
Qed.

Lemma dict_get_delitem_ne d k k' :
  k' <> k -> Py.dict_get k' (Py.dict_delitem k d) = Py.dict_get k' d.
Proof.
  intros Hne. induction d as [|[k0 v0] d IH]; simpl; [reflexivity |].
  destruct (String.eqb_spec k0 k) as [E|N]; simpl.
  - subst. apply not_eq_sym, String.eqb_neq in Hne. now rewrite Hne.
  - now rewrite IH.
Qed.

Lemma dict_contains_iff d k : Py.dict_contains k d = true <-> In k (keys d).
Proof.
  unfold Py.dict_contains. destruct (Py.dict_get k d) eqn:E.
  - split; [intros _ | reflexivity].
    destruct (in_dec string_dec k (keys d)) as [H|H]; [assumption |].
    apply dict_get_none in H. congruence.
  - apply dict_get_none in E. split; [discriminate | tauto].
Qed.
End DictFacts.

(** * [AddressBook]: the directory *)

Lemma delete_absent (d : AddressBook) nm :
  ~ In nm (keys d) -> delete nm d = (Raise (ValueError "Record not found"), d).
Proof.
  intros H. unfold delete.
  destruct (Py.dict_contains nm d) eqn:E; [| reflexivity].
  apply dict_contains_iff in E. contradiction.
Qed.

Lemma delete_present (d : AddressBook) nm :
  In nm (keys d) -> delete nm d = (Ok tt, Py.dict_delitem nm d).
Proof.
  intros H. unfold delete. apply dict_contains_iff in H. now rewrite H.
Qed.

(** C6: under a name that is not a key, [delete] raises [ValueError]
    ([Record not found]) and the directory, hence its size, is unchanged;
    under a name that is a key it succeeds and removes that entry and no
    other: the remaining entries keep their order and values, and the name
    is no longer a key. *)
Theorem delete_correct :
  forall (d : AddressBook) (nm : string),
    Py.dict_wf d ->
    (~ In nm (keys d) ->
       delete nm d = (Raise (ValueError "Record not found"), d) /\
       Py.dict_len (snd (delete nm d)) = Py.dict_len d) /\
    (In nm (keys d) ->
       exists l1 r l2,
         d = (l1 ++ (nm, r) :: l2)%list /\
         delete nm d = (Ok tt, (l1 ++ l2)%list) /\
         ~ In nm (keys (l1 ++ l2)%list) /\
         find nm (l1 ++ l2)%list = None /\
         (forall k, k <> nm -> find k (l1 ++ l2)%list = find k d) /\
         S (Py.dict_len (l1 ++ l2)%list) = Py.dict_len d).
Proof.
  intros d nm Hwf. split.
  - intros H. rewrite (delete_absent d nm H). now split.
  - intros H. destruct (dict_delitem_split d nm H) as (l1 & r & l2 & Hd & Hl1 & E).
    exists l1, r, l2.
    assert (Hout : ~ In nm (keys (l1 ++ l2)%list)).
    { unfold Py.dict_wf in Hwf. rewrite Hd, map_app in Hwf. simpl in Hwf.
      apply NoDup_remove_2 in Hwf. unfold keys. now rewrite map_app. }
    repeat split; trivial.
    + rewrite (delete_present d nm H). now rewrite E.
    + now apply dict_get_none.
    + intros k Hk. unfold find. rewrite <- E. now apply dict_get_delitem_ne.
    + rewrite Hd. unfold Py.dict_len. rewrite !length_app. simpl. lia.
Qed.

Lemma delete_correct_witness :
  exists l1 r l2,
    [("ann", mkRecord (mkField "ann") []); ("bob", mkRecord (mkField "bob") [])] =
      (l1 ++ ("ann", r) :: l2)%list /\
    delete "ann"
      [("ann", mkRecord (mkField "ann") []); ("bob", mkRecord (mkField "bob") [])] =
      (Ok tt, (l1 ++ l2)%list) /\
    ~ In "ann" (keys (l1 ++ l2)%list) /\
    find "ann" (l1 ++ l2)%list = None /\
    (forall k, k <> "ann" ->
       find k (l1 ++ l2)%list =
       find k [("ann", mkRecord (mkField "ann") []); ("bob", mkRecord (mkField "bob") [])]) /\
    S (Py.dict_len (l1 ++ l2)%list) =
      Py.dict_len
        [("ann", mkRecord (mkField "ann") []); ("bob", mkRecord (mkField "bob") [])].
Proof.
  apply (delete_correct
           [("ann", mkRecord (mkField "ann") []); ("bob", mkRecord (mkField "bob") [])]
           "ann").
  - unfold Py.dict_wf. simpl. repeat constructor; simpl; intuition discriminate.
  - simpl. auto.
Defined.

Lemma key_is_name_add_record d r : key_is_name d -> key_is_name (add_record r d).
Proof.
  intros H k r' Hin. apply in_dict_setitem in Hin.
  destruct Hin as [[= -> ->] | Hin]; [reflexivity | now apply H].
Qed.

Lemma key_is_name_delete d nm : key_is_name d -> key_is_name (snd (delete nm d)).
Proof.
  intros H. unfold delete. destruct (Py.dict_contains nm d); simpl; [| exact H].
  intros k r Hin. apply H. now apply in_dict_delitem in Hin.
Qed.

Lemma key_is_name_apply d o : key_is_name d -> key_is_name (apply_operation d o).
Proof.
  destruct o; simpl; intros H;
    [now apply key_is_name_add_record | exact H | now apply key_is_name_delete].
Qed.

Lemma dict_wf_apply d o : Py.dict_wf d -> Py.dict_wf (apply_operation d o).
Proof.
  destruct o as [r | nm | nm]; simpl; intros H.
  - now apply dict_wf_setitem.
  - exact H.
  - unfold delete. destruct (Py.dict_contains nm d) eqn:E; simpl; [| exact H].
    apply dict_contains_iff in E.
    destruct (dict_delitem_split d nm E) as (l1 & r & l2 & Hd & _ & ->).
    unfold Py.dict_wf in *. rewrite Hd, map_app in H. simpl in H.
    apply NoDup_remove_1 in H. now rewrite map_app.
Qed.

(** Whatever holds of the empty directory and is kept by every operation
    holds after any sequence of operations. *)
Lemma run_operations_ind (P : AddressBook -> Prop) :
  P [] -> (forall d o, P d -> P (apply_operation d o)) ->
  forall ops, P (run_operations ops).
Proof.
  intros H0 Hstep ops. unfold run_operations.
  generalize (@nil (string * ContactRecord)) H0.
  induction ops as [|o ops IH]; simpl; intros d Hd; [exact Hd |].
  apply IH, Hstep, Hd.
Qed.

(** C8: in every directory obtained from the empty one by a sequence of
    [add_record], [find] and [delete], each record is stored under its own
    name (an entry, or a successful lookup, under the key [k] holds a
    record whose name is [k]), keys are unique, and each of the three
    operations preserves the invariant. *)
Theorem directory_key_is_name :
  (forall ops, key_is_name (run_operations ops)) /\
  (forall ops k r, find k (run_operations ops) = Some r -> value (name r) = k) /\
  (forall ops, Py.dict_wf (run_operations ops)) /\
  (forall d o, key_is_name d -> key_is_name (apply_operation d o)).
Proof.
  assert (H : forall ops, key_is_name (run_operations ops)).
  { apply run_operations_ind; [intros k r [] | intros; now apply key_is_name_apply]. }
  repeat split.
  - exact H.
  - intros ops k r Hk. symmetry. apply (H ops). now apply dict_get_in.
  - apply run_operations_ind; [constructor | intros; now apply dict_wf_apply].
  - intros; now apply key_is_name_apply.
Qed.

Lemma directory_key_is_name_witness :
  value (name (mkRecord (mkField "bob") [])) = "bob".
Proof.
  apply (proj1 (proj2 directory_key_is_name)
           [Add_record (mkRecord (mkField "ann") []);
            Add_record (mkRecord (mkField "bob") []);
            Find "ann"; Delete "ann"; Delete "zed"]).
  reflexivity.
Defined.

(** C3: [add_record] is a total function of the record and the directory
    (it has no raising outcome): afterwards the record's name maps to the
    record, whatever was stored there before, and the other names map to
    what they did.  The [add] command, given a name that already has a
    record, answers with a message containing [already exists] and leaves
    the directory untouched. *)
Theorem add_record_overwrites_add_contact_refuses :
  (forall (d : AddressBook) (r : ContactRecord),
     find (value (name r)) (add_record r d) = Some r /\
     (forall k, k <> value (name r) -> find k (add_record r d) = find k d)) /\
  (forall (d : AddressBook) (nm phone : string) (r0 : ContactRecord),
     find nm d = Some r0 ->
     add_contact [nm; phone] d = (Ok "Error: Contact already exists.", d) /\
     contains_text "already exists" "Error: Contact already exists.").
Proof.
  split.
  - intros d r. split.
    + apply dict_get_setitem_eq.
    + intros k Hk. now apply dict_get_setitem_ne.
  - intros d nm phone r0 H. split.
    + unfold add_contact, input_error, add_contact_func, bind, get.
      cbv beta iota. rewrite H. reflexivity.
    + exists "Error: Contact ", ".". reflexivity.
Qed.

Lemma add_record_overwrites_add_contact_refuses_witness :
  add_contact ["john"; "0000000000"]
    [("john", mkRecord (mkField "john") [mkField "1234567890"])] =
    (Ok "Error: Contact already exists.",
     [("john", mkRecord (mkField "john") [mkField "1234567890"])]) /\
  contains_text "already exists" "Error: Contact already exists.".
Proof.
  apply (proj2 add_record_overwrites_add_contact_refuses
           [("john", mkRecord (mkField "john") [mkField "1234567890"])]
           "john" "0000000000" (mkRecord (mkField "john") [mkField "1234567890"])).
  reflexivity.
Defined.

(** * Rendering *)

Lemma join_spec_joined sep xs : Py.join sep xs = spec_joined sep xs.
Proof.
  destruct xs as [|x xs]; [reflexivity |].
  revert x. induction xs as [|y xs IH]; intros x.
  - simpl. symmetry. clear. induction x; simpl; congruence.
  - change (Py.join sep (x :: y :: xs)) with (x ++ sep ++ Py.join sep (y :: xs)).
    rewrite IH. reflexivity.
Qed.

(** C9: a record renders as [Contact name: ], its name, [, phones: ] and
    its phone values in list order separated by [; ], hence with nothing
    after [phones: ] when it has no phone; a directory renders as the
    renderings of its records in iteration order separated by the newline
    character U+000A, one record per line, and the empty directory as the
    empty string. *)
Theorem rendering_correct :
  (forall r : ContactRecord,
     Record_str r =
       "Contact name: " ++ value (name r) ++ ", phones: " ++
       spec_joined "; " (map value (phones r))) /\
  (forall n : Name,
     Record_str (mkRecord n []) = "Contact name: " ++ value n ++ ", phones: ") /\
  (forall d : AddressBook,
     AddressBook_str d =
       spec_joined (String "010"%char EmptyString) (map Record_str (records d))) /\
  (forall (k1 k2 : string) (r1 r2 : ContactRecord),
     AddressBook_str [(k1, r1); (k2, r2)] =
       Record_str r1 ++ String "010"%char (Record_str r2)) /\
  AddressBook_str
    [("ann", mkRecord (mkField "ann") [mkField "1234567890"; mkField "5555555555"]);
     ("bob", mkRecord (mkField "bob") [])] =
    "Contact name: ann, phones: 1234567890; 5555555555" ++
    String "010"%char "Contact name: bob, phones: " /\
  AddressBook_str [] = EmptyString.
Proof.
  split; [| split; [| split; [| split; [| split]]]].
  - intros r. unfold Record_str. now rewrite join_spec_joined.
  - reflexivity.
  - intros d. unfold AddressBook_str, Py.dict_values, records.
    now rewrite join_spec_joined.
  - intros k1 k2 r1 r2. reflexivity.
  - reflexivity.
  - reflexivity.
Qed.

(** * [parse_input]: splitting and case folding *)

Lemma char_isspace_lower c : Py.char_isspace (Py.char_lower c) = Py.char_isspace c.
Proof. each_char c; reflexivity. Qed.

Lemma char_lower_idem c : Py.char_lower (Py.char_lower c) = Py.char_lower c.
Proof. each_char c; reflexivity. Qed.

Lemma lower_idem s : Py.lower (Py.lower s) = Py.lower s.
Proof. induction s as [|c s IH]; simpl; [reflexivity |]. now rewrite char_lower_idem, IH. Qed.

Lemma split_cons c s :
  Py.split (String c s) =
    if Py.char_isspace c then Py.split s
    else if starts_blank s then String c EmptyString :: Py.split s
    else match Py.split s with
         | w :: ws => String c w :: ws
         | [] => [String c EmptyString]
         end.
Proof. destruct s; reflexivity. Qed.

Lemma starts_blank_lower s : starts_blank (Py.lower s) = starts_blank s.
Proof. destruct s; simpl; [reflexivity | apply char_isspace_lower]. Qed.

Lemma split_lower s : Py.split (Py.lower s) = map Py.lower (Py.split s).
Proof.
  induction s as [|c s IH]; [reflexivity |].
  change (Py.lower (String c s)) with (String (Py.char_lower c) (Py.lower s)).
  rewrite !split_cons, char_isspace_lower, starts_blank_lower, IH.
  destruct (Py.char_isspace c); [reflexivity |].
  destruct (starts_blank s); [reflexivity |].
  destruct (Py.split s); reflexivity.
Qed.

Lemma split_lstrip s : Py.split (Py.lstrip s) = Py.split s.
Proof.
  induction s as [|c s IH]; [reflexivity |].
  rewrite split_cons. simpl Py.lstrip.
  destruct (Py.char_isspace c) eqn:E; [exact IH |].
  now rewrite split_cons, E.
Qed.

Lemma rstrip_nil_blank s : Py.rstrip s = EmptyString -> starts_blank s = true.
Proof.
  destruct s as [|c s]; simpl; [reflexivity |].
  destruct (Py.rstrip s); [| discriminate].
  destruct (Py.char_isspace c); [reflexivity | discriminate].
Qed.

Lemma starts_blank_rstrip s :
  Py.rstrip s <> EmptyString -> starts_blank (Py.rstrip s) = starts_blank s.
Proof.
  destruct s as [|c s]; simpl; [reflexivity |].
  destruct (Py.rstrip s); [| reflexivity].
  destruct (Py.char_isspace c) eqn:E; [intros H; now contradiction H |].
  intros _. simpl. exact E.
Qed.

Lemma split_rstrip s : Py.split (Py.rstrip s) = Py.split s.
Proof.
  induction s as [|c s IH]; [reflexivity |].
  rewrite (split_cons c s). simpl Py.rstrip.
  destruct (Py.rstrip s) as [|d r] eqn:E.
  - rewrite (rstrip_nil_blank s E), <- IH. simpl.
    destruct (Py.char_isspace c) eqn:Ec; [reflexivity |].
    simpl. now rewrite Ec.
  - assert (B : starts_blank (String d r) = starts_blank s).
    { rewrite <- E. apply starts_blank_rstrip. rewrite E. discriminate. }
    rewrite <- IH, <- B. apply split_cons.
Qed.

Lemma parse_input_words line :
  parse_input line =
    match map Py.lower (Py.split line) with
    | cmd :: args => Ok (cmd, args)
    | [] => Raise (ValueError unpack_message)
    end.
Proof.
  unfold parse_input, Py.strip.
  now rewrite split_lower, split_rstrip, split_lstrip.
Qed.

(** C4, as stated, fails: the name typed [John] reaches the handler, and
    the directory, as [john]. *)
Lemma parse_input_lowercases_arguments_counterexample :
  Py.split "add John 1234567890" = ["add"; "John"; "1234567890"] /\
  parse_input "add John 1234567890" = Ok ("add", ["john"; "1234567890"]) /\
  main ["add John 1234567890"; "all"; "phone john"; "exit"] =
    (["Welcome to the assistant bot!"; "Contact added.";
      "Contact name: john, phones: 1234567890"; "john: 1234567890"; "Good bye!"],
     Exited).
Proof. repeat split. Qed.

(** C4, amended: [parse_input] lowercases the whole line before it splits
    it, so the command word and every argument are the whitespace-separated
    words of the line in lower case: names are stored and looked up in
    lower case, not as typed. *)
Theorem parse_input_lowercases_every_word :
  forall line : string,
    parse_input line =
      match map Py.lower (Py.split line) with
      | cmd :: args => Ok (cmd, args)
      | [] => Raise (ValueError unpack_message)
      end /\
    (forall cmd args,
       parse_input line = Ok (cmd, args) ->
       Forall (fun w => Py.lower w = w) (cmd :: args)).
Proof.
  intros line. split; [apply parse_input_words |].
  intros cmd args. rewrite parse_input_words.
  destruct (map Py.lower (Py.split line)) as [|w ws] eqn:E; [discriminate |].
  intros [= <- <-]. rewrite <- E.
  apply Forall_forall. intros w' Hin. apply in_map_iff in Hin.
  destruct Hin as [x [<- _]]. apply lower_idem.
Qed.

Lemma parse_input_lowercases_every_word_witness :
  Forall (fun w => Py.lower w = w) ["phone"; "john"].
Proof.
  apply (proj2 (parse_input_lowercases_every_word "PHONE John") "phone" ["john"]).
  reflexivity.
Defined.

(** * The command loop *)

Lemma add_contact_answers args d :
  exists msg d', add_contact args d = (Ok msg, d').
Proof.
  unfold add_contact, input_error, add_contact_func.
  destruct args as [|nm [|phone [|x l]]]; try (eexists; eexists; reflexivity).
  unfold bind, get, lift, raise, put, ret. cbv beta iota.
  destruct (find nm d); [eexists; eexists; reflexivity |].
  unfold Record_init, Name_init. destruct nm; [eexists; eexists; reflexivity |].
  cbv beta iota. unfold add_phone, bind, lift, get, put, Phone_init.
  destruct (validate_phone phone); simpl; eexists; eexists; reflexivity.
Qed.

Lemma never_eof_bind {S A B} (m : M S A) (k : A -> M S B) :
  never_eof m -> (forall a, never_eof (k a)) -> never_eof (bind m k).
Proof.
  intros Hm Hk s. unfold bind. specialize (Hm s).
  destruct (m s) as [[a | e] s']; simpl in *; [apply Hk | congruence].
Qed.

Lemma never_eof_lift {S A} (r : res A) :
  r <> Raise EOFError -> never_eof (@lift S A r).
Proof. intros H s. exact H. Qed.

Lemma never_eof_get {S} : never_eof (@get S).
Proof. intros s. discriminate. Qed.

Lemma never_eof_put {S} (s0 : S) : never_eof (put s0).
Proof. intros s. discriminate. Qed.

Lemma list_remove_no_eof x l : list_remove x l <> Raise EOFError.
Proof.
  induction l as [|y l IH]; simpl; [discriminate |].
  destruct (Field_eqb y x); [discriminate |].
  destruct (list_remove x l); [discriminate | congruence].
Qed.

Lemma Phone_init_no_eof v : Phone_init v <> Raise EOFError.
Proof. unfold Phone_init. destruct (validate_phone v); discriminate. Qed.

Lemma add_phone_never_eof phone : never_eof (add_phone phone).
Proof.
  unfold add_phone. apply never_eof_bind.
  - apply never_eof_lift, Phone_init_no_eof.
  - intros p. apply never_eof_bind; [apply never_eof_get | intros; apply never_eof_put].
Qed.

Lemma remove_phone_never_eof phone : never_eof (remove_phone phone).
Proof.
  unfold remove_phone. apply never_eof_bind; [apply never_eof_get |].
  intros self. destruct (find_phone phone self) as [phone_obj |].
  - apply never_eof_bind; [apply never_eof_lift, list_remove_no_eof |].
    intros; apply never_eof_put.
  - intros s. discriminate.
Qed.

Lemma edit_phone_never_eof old new : never_eof (edit_phone old new).
Proof.
  unfold edit_phone. apply never_eof_bind; [apply never_eof_get |].
  intros self. destruct (find_phone old self).
  - apply never_eof_bind; [apply remove_phone_never_eof |].
    intros; apply add_phone_never_eof.
  - intros s. discriminate.
Qed.

Lemma change_contact_answers args d :
  exists msg d', change_contact args d = (Ok msg, d').
Proof.
  unfold change_contact, input_error, change_contact_func.
  destruct args as [|nm [|phone [|x l]]]; try (eexists; eexists; reflexivity).
  unfold bind at 1, get. cbv beta iota.
  destruct (find nm d) as [record |]; [| eexists; eexists; reflexivity].
  destruct (phones record) as [|first rest] eqn:Hp; [eexists; eexists; reflexivity |].
  cbv zeta. pose proof (edit_phone_never_eof (value first) phone record) as Hno.
  destruct (edit_phone (value first) phone record) as [r record'].
  unfold bind, put, lift, ret. simpl in Hno.
  destruct r as [[] | e]; [eexists; eexists; reflexivity |].
  destruct e; try (eexists; eexists; reflexivity). now contradiction Hno.
Qed.

Lemma show_phone_answers args d :
  exists msg d', show_phone args d = (Ok msg, d').
Proof.
  unfold show_phone, input_error, show_phone_func.
  destruct args as [|nm [|x l]]; try (eexists; eexists; reflexivity).
  unfold bind, get, ret, raise. cbv beta iota.
  destruct (find nm d); eexists; eexists; reflexivity.
Qed.

Lemma show_all_answers d : exists msg d', show_all d = (Ok msg, d').
Proof.
  unfold show_all, input_error, show_all_func, bind, get, ret. cbv beta iota.
  destruct (Py.dict_len d); eexists; eexists; reflexivity.
Qed.

(** A line with at least one word is always answered: the turn prints a
    message and the loop goes on, or it prints [Good bye!] and the loop
    ends. *)
Lemma main_turn_answers_words line contacts :
  Py.split line <> [] ->
  (exists msg contacts', main_turn line contacts = Continue msg contacts') \/
  main_turn line contacts = Break "Good bye!" contacts.
Proof.
  intros Hw. unfold main_turn. rewrite parse_input_words.
  destruct (Py.split line) as [|w ws]; [now contradiction Hw |]. simpl map.
  cbv beta iota. set (command := Py.lower w). set (args := map Py.lower ws).
  destruct (String.eqb command "close" || String.eqb command "exit"); [now right |].
  left.
  destruct (String.eqb command "hello"); [eauto |].
  destruct (String.eqb command "add").
  { destruct (add_contact_answers args contacts) as (m & d' & ->). simpl. eauto. }
  destruct (String.eqb command "change").
  { destruct (change_contact_answers args contacts) as (m & d' & ->). simpl. eauto. }
  destruct (String.eqb command "phone").
  { destruct (show_phone_answers args contacts) as (m & d' & ->). simpl. eauto. }
  destruct (String.eqb command "all").
  { destruct (show_all_answers contacts) as (m & d' & ->). simpl. eauto. }
  destruct (String.eqb command "help"); eauto.
Qed.

Lemma main_turn_blank line contacts :
  Py.split line = [] ->
  main_turn line contacts = Uncaught (ValueError unpack_message) contacts.
Proof.
  intros H. unfold main_turn. rewrite parse_input_words, H. reflexivity.
Qed.

(** C5 fails on the code at the empty line and at any line of white space
    only: [parse_input] raises [ValueError] outside every handler wrapped
    by [input_error], nothing is printed for that line, and [main] ends
    with the exception uncaught, whatever the directory holds. *)
Theorem blank_line_crashes_main :
  forall contacts : AddressBook,
    main_turn "" contacts = Uncaught (ValueError unpack_message) contacts /\
    main_turn "   " contacts = Uncaught (ValueError unpack_message) contacts /\
    main ["add john 1234567890"; ""; "all"] =
      (["Welcome to the assistant bot!"; "Contact added."],
       Crashed (ValueError unpack_message)).
Proof.
  intros contacts. repeat split; now apply main_turn_blank.
Qed.

(** * The [change] command on a contact without phones *)

Lemma change_contact_no_phone contacts nm new_phone record :
  find nm contacts = Some record ->
  phones record = [] ->
  change_contact_func [nm; new_phone] contacts =
    (Raise (IndexError "list index out of range"), contacts) /\
  change_contact [nm; new_phone] contacts =
    (Ok "Error: Invalid command format.", contacts).
Proof.
  intros Hfind Hp.
  assert (E : change_contact_func [nm; new_phone] contacts =
              (Raise (IndexError "list index out of range"), contacts)).
  { unfold change_contact_func, bind at 1, get. cbv beta iota.
    rewrite Hfind, Hp. reflexivity. }
  split; [exact E |]. unfold change_contact, input_error. now rewrite E.
Qed.

(** C10: a [change] whose new phone fails validation, sent to a contact
    with one phone, is answered [Error: Phone number must be 10 digits] and
    leaves the contact in the directory with an empty phone list; any later
    [change] sent to that contact, valid or not, raises the [IndexError] of
    reading the first phone, is answered [Error: Invalid command format.]
    and changes nothing. *)
Theorem change_contact_on_emptied_record :
  forall (contacts : AddressBook) (nm bad new_phone : string)
         (record : ContactRecord) (p : Phone),
    find nm contacts = Some record ->
    phones record = [p] ->
    validate_phone bad = false ->
    exists contacts',
      change_contact [nm; bad] contacts =
        (Ok "Error: Phone number must be 10 digits", contacts') /\
      find nm contacts' = Some (mkRecord (name record) []) /\
      change_contact_func [nm; new_phone] contacts' =
        (Raise (IndexError "list index out of range"), contacts') /\
      change_contact [nm; new_phone] contacts' =
        (Ok "Error: Invalid command format.", contacts').
Proof.
  intros contacts nm bad new_phone record p Hfind Hp Hbad.
  exists (Py.dict_setitem nm (mkRecord (name record) []) contacts).
  assert (E : edit_phone (value p) bad record =
              (Raise (ValueError "Phone number must be 10 digits"),
               mkRecord (name record) [])).
  { apply (edit_phone_first_invalid record (value p) bad [] p []); trivial.
    intros [q [[] _]]. }
  assert (F : find nm (Py.dict_setitem nm (mkRecord (name record) []) contacts) =
              Some (mkRecord (name record) [])) by apply dict_get_setitem_eq.
  split; [| split; [exact F |]].
  - unfold change_contact, input_error, change_contact_func, bind at 1, get.
    cbv beta iota. rewrite Hfind, Hp. cbv zeta. rewrite E. reflexivity.
  - now apply change_contact_no_phone with (record := mkRecord (name record) []).
Qed.

Lemma change_contact_on_emptied_record_witness :
  exists contacts',
    change_contact ["john"; "12-34"]
      [("john", mkRecord (mkField "john") [mkField "1234567890"])] =
      (Ok "Error: Phone number must be 10 digits", contacts') /\
    find "john" contacts' = Some (mkRecord (mkField "john") []) /\
    change_contact_func ["john"; "1112223333"] contacts' =
      (Raise (IndexError "list index out of range"), contacts') /\
    change_contact ["john"; "1112223333"] contacts' =
      (Ok "Error: Invalid command format.", contacts').
Proof.
  apply (change_contact_on_emptied_record
           [("john", mkRecord (mkField "john") [mkField "1234567890"])]
           "john" "12-34" "1112223333"
           (mkRecord (mkField "john") [mkField "1234567890"])
           (mkField "1234567890"));
    reflexivity.
Defined.

(** * More on [Record] *)

Lemma find_phone_in_some s l p :
  find_phone_in s l = Some p ->
  exists l1 l2, l = (l1 ++ p :: l2)%list /\ value p = s /\ ~ has_phone s l1.
Proof.
  induction l as [|q l IH]; simpl; [discriminate |].
  destruct (String.eqb_spec (value q) s) as [E|N].
  - intros [= ->]. exists [], l. repeat split; trivial. intros [x [[] _]].
  - intros H. destruct (IH H) as (l1 & l2 & -> & Hp & Hl1).
    exists (q :: l1), l2. repeat split; trivial.
    intros [x [[<- | Hin] Hx]]; [now apply N | apply Hl1; exists x; auto].
Qed.

Lemma find_phone_in_app_last s l q :
  find_phone_in s (l ++ [q]) =
    match find_phone_in s l with
    | Some x => Some x
    | None => if String.eqb (value q) s then Some q else None
    end.
Proof.
  induction l as [|y l IH]; simpl; [reflexivity |].
  destruct (String.eqb (value y) s); [reflexivity | exact IH].
Qed.

Lemma add_phone_valid r p :
  validate_phone p = true ->
  add_phone p r = (Ok tt, mkRecord (name r) (phones r ++ [mkField p])).
Proof.
  intros H. unfold add_phone, bind, lift, get, put, Phone_init. now rewrite H.
Qed.

Lemma edit_phone_absent r old new :
  ~ has_phone old (phones r) ->
  edit_phone old new r = (Raise (ValueError "Old phone number not found"), r).
Proof.
  intros H. apply find_phone_in_none in H.
  unfold edit_phone, bind, get, find_phone. cbv beta iota. now rewrite H.
Qed.

Lemma edit_phone_first_valid r old new l1 p l2 :
  phones r = (l1 ++ p :: l2)%list -> value p = old -> ~ has_phone old l1 ->
  validate_phone new = true ->
  edit_phone old new r =
    (Ok tt, mkRecord (name r) ((l1 ++ l2) ++ [mkField new])).
Proof.
  intros Hr Hp Hl1 Hnew.
  unfold edit_phone, bind at 1, get, find_phone. cbv beta iota.
  rewrite Hr, (find_phone_in_first old l1 p l2 Hp Hl1).
  unfold bind. rewrite (remove_phone_first r old l1 p l2 Hr Hp Hl1).
  cbv beta iota. now rewrite add_phone_valid.
Qed.

Lemma has_phone_dec s l : has_phone s l \/ ~ has_phone s l.
Proof.
  destruct (find_phone_in s l) as [p |] eqn:E.
  - left. destruct (find_phone_in_some s l p E) as (l1 & l2 & -> & Hp & _).
    exists p. split; [apply in_or_app; right; now left | exact Hp].
  - right. now apply find_phone_in_none.
Qed.

(** The phone list a method leaves is the old one, or the old one without
    one element, or either of these with one valid phone appended. *)
Lemma remove_phone_shape r s :
  snd (remove_phone s r) = r \/
  exists l1 p l2, phones r = (l1 ++ p :: l2)%list /\
                  snd (remove_phone s r) = mkRecord (name r) (l1 ++ l2).
Proof.
  destruct (has_phone_dec s (phones r)) as [H | H].
  - right. destruct (has_phone_first s (phones r) H) as (l1 & p & l2 & Hr & Hp & Hl1).
    exists l1, p, l2. now rewrite (remove_phone_first r s l1 p l2 Hr Hp Hl1).
  - left. now rewrite remove_phone_absent.
Qed.

Lemma edit_phone_shape r old new :
  snd (edit_phone old new r) = r \/
  exists l1 p l2, phones r = (l1 ++ p :: l2)%list /\
    (snd (edit_phone old new r) = mkRecord (name r) (l1 ++ l2) \/
     validate_phone new = true /\
     snd (edit_phone old new r) = mkRecord (name r) ((l1 ++ l2) ++ [mkField new])).
Proof.
  destruct (has_phone_dec old (phones r)) as [H | H].
  - right. destruct (has_phone_first old (phones r) H) as (l1 & p & l2 & Hr & Hp & Hl1).
    exists l1, p, l2. split; [exact Hr |].
    destruct (validate_phone new) eqn:V.
    + right. split; [reflexivity |].
      now rewrite (edit_phone_first_valid r old new l1 p l2 Hr Hp Hl1 V).
    + left. now rewrite (edit_phone_first_invalid r old new l1 p l2 Hr Hp Hl1 V).
  - left. now rewrite edit_phone_absent.
Qed.

Lemma add_phone_shape r p :
  snd (add_phone p r) = r \/
  validate_phone p = true /\
  snd (add_phone p r) = mkRecord (name r) (phones r ++ [mkField p]).
Proof.
  destruct (validate_phone p) eqn:V.
  - right. split; [reflexivity |]. now rewrite add_phone_valid.
  - left. now rewrite add_phone_invalid.
Qed.

Lemma Forall_remove_middle {A} (P : A -> Prop) l1 x l2 :
  Forall P (l1 ++ x :: l2) -> Forall P (l1 ++ l2).
Proof.
  intros H. apply Forall_app in H. destruct H as [H1 H2].
  apply Forall_app. split; [exact H1 | now inversion H2].
Qed.

(** X1: [find_phone] returns the first phone of the list whose value is
    the one asked for, and [None] exactly when no phone has that value. *)
Theorem find_phone_correct :
  forall (r : ContactRecord) (s : string),
    (forall p, find_phone s r = Some p ->
       exists l1 l2,
         phones r = (l1 ++ p :: l2)%list /\ value p = s /\ ~ has_phone s l1) /\
    (find_phone s r = None <-> ~ has_phone s (phones r)).
Proof.
  intros r s. split.
  - intros p. apply find_phone_in_some.
  - apply find_phone_in_none.
Qed.

(** X2: a valid number given to [add_phone] is appended at the end of the
    list, duplicates included; [find_phone] then finds a phone with that
    value, and the lookup of any other value is what it was. *)
Theorem add_phone_then_find_phone :
  forall (r : ContactRecord) (p : string),
    validate_phone p = true ->
    add_phone p r = (Ok tt, mkRecord (name r) (phones r ++ [mkField p])) /\
    (exists q, find_phone p (snd (add_phone p r)) = Some q /\ value q = p) /\
    (forall s, s <> p -> find_phone s (snd (add_phone p r)) = find_phone s r).
Proof.
  intros r p V. rewrite (add_phone_valid r p V). split; [reflexivity |].
  unfold find_phone. simpl. split.
  - rewrite find_phone_in_app_last. destruct (find_phone_in p (phones r)) as [x |] eqn:E.
    + exists x. split; [reflexivity |].
      now destruct (find_phone_in_some p _ x E) as (_ & _ & _ & Hx & _).
    + exists (mkField p). simpl. now rewrite String.eqb_refl.
  - intros s Hs. rewrite find_phone_in_app_last. simpl.
    apply not_eq_sym, String.eqb_neq in Hs. rewrite Hs.
    now destruct (find_phone_in s (phones r)).
Qed.

Lemma add_phone_then_find_phone_witness :
  add_phone "1234567890" (mkRecord (mkField "john") [mkField "5555555555"]) =
    (Ok tt, mkRecord (mkField "john") [mkField "5555555555"; mkField "1234567890"]).
Proof.
  apply (proj1 (add_phone_then_find_phone
                  (mkRecord (mkField "john") [mkField "5555555555"]) "1234567890"
                  eq_refl)).
Defined.

(** X3: whether they return or raise, and whatever the record holds,
    [add_phone], [remove_phone] and [edit_phone] leave the name of the
    record as it was; and a record all of whose phones are valid keeps
    that property through each of them. *)
Theorem record_methods_keep_phones_valid :
  forall (r : ContactRecord) (a b : string),
    (name (snd (add_phone a r)) = name r /\
     name (snd (remove_phone a r)) = name r /\
     name (snd (edit_phone a b r)) = name r) /\
    (phones_valid r ->
       phones_valid (snd (add_phone a r)) /\
       phones_valid (snd (remove_phone a r)) /\
       phones_valid (snd (edit_phone a b r))).
Proof.
  intros r a b. split; [split; [| split] |].
  - destruct (add_phone_shape r a) as [-> | [_ ->]]; reflexivity.
  - destruct (remove_phone_shape r a) as [-> | (l1 & p & l2 & _ & ->)]; reflexivity.
  - destruct (edit_phone_shape r a b) as [-> | (l1 & p & l2 & _ & [-> | [_ ->]])];
      reflexivity.
  - intros Hv. unfold phones_valid in *. split; [| split].
    + destruct (add_phone_shape r a) as [-> | [V ->]]; [exact Hv |].
      simpl. apply Forall_app. split; [exact Hv | now repeat constructor].
    + destruct (remove_phone_shape r a) as [-> | (l1 & p & l2 & Hr & ->)]; [exact Hv |].
      simpl. rewrite Hr in Hv. now apply Forall_remove_middle in Hv.
    + destruct (edit_phone_shape r a b) as [-> | (l1 & p & l2 & Hr & [-> | [V ->]])];
        [exact Hv | |]; simpl; rewrite Hr in Hv; apply Forall_remove_middle in Hv;
        [exact Hv |].
      apply Forall_app. split; [exact Hv | now repeat constructor].
Qed.

Lemma record_methods_keep_phones_valid_witness :
  phones_valid (snd (add_phone "1234567890"
                       (mkRecord (mkField "john") [mkField "1234567890"]))) /\
  phones_valid (snd (remove_phone "1234567890"
                       (mkRecord (mkField "john") [mkField "1234567890"]))) /\
  phones_valid (snd (edit_phone "1234567890" "12-34"
                       (mkRecord (mkField "john") [mkField "1234567890"]))).
Proof.
  apply (proj2 (record_methods_keep_phones_valid
                  (mkRecord (mkField "john") [mkField "1234567890"])
                  "1234567890" "12-34")).
  repeat constructor.
Defined.

(** X4: when the record holds [old] and [new] is valid, [edit_phone]
    succeeds, drops the first phone equal to [old] and appends [new] at the
    end of the list: the new number does not take the place of the old one,
    and the number of phones is unchanged. *)
Theorem edit_phone_moves_to_end :
  forall (r : ContactRecord) (old new : string),
    has_phone old (phones r) ->
    validate_phone new = true ->
    exists l1 p l2,
      phones r = (l1 ++ p :: l2)%list /\ value p = old /\ ~ has_phone old l1 /\
      edit_phone old new r =
        (Ok tt, mkRecord (name r) ((l1 ++ l2) ++ [mkField new])) /\
      List.length (phones (snd (edit_phone old new r))) = List.length (phones r).
Proof.
  intros r old new H V.
  destruct (has_phone_first old (phones r) H) as (l1 & p & l2 & Hr & Hp & Hl1).
  exists l1, p, l2. rewrite (edit_phone_first_valid r old new l1 p l2 Hr Hp Hl1 V).
  repeat split; trivial. simpl. rewrite Hr, !length_app. simpl. lia.
Qed.

Lemma edit_phone_moves_to_end_witness :
  exists l1 p l2,
    [mkField "1234567890"; mkField "5555555555"] = (l1 ++ p :: l2)%list /\
    value p = "1234567890" /\ ~ has_phone "1234567890" l1 /\
    edit_phone "1234567890" "1112223333"
      (mkRecord (mkField "john") [mkField "1234567890"; mkField "5555555555"]) =
      (Ok tt, mkRecord (mkField "john") ((l1 ++ l2) ++ [mkField "1112223333"])) /\
    List.length (phones (snd (edit_phone "1234567890" "1112223333"
      (mkRecord (mkField "john") [mkField "1234567890"; mkField "5555555555"])))) = 2.
Proof.
  apply (edit_phone_moves_to_end
           (mkRecord (mkField "john") [mkField "1234567890"; mkField "5555555555"])
           "1234567890" "1112223333").
  - exists (mkField "1234567890"). simpl. auto.
  - reflexivity.
Defined.

(** X5: when no phone of the record equals [old], [edit_phone] raises
    [ValueError] with the message [Old phone number not found] and leaves
    the record as it was, whether or not [new] is valid: the old number is
    looked up before the new one is validated. *)
Theorem edit_phone_old_absent :
  forall (r : ContactRecord) (old new : string),
    ~ has_phone old (phones r) ->
    edit_phone old new r = (Raise (ValueError "Old phone number not found"), r).
Proof.
  intros r old new H. apply find_phone_in_none in H.
  unfold edit_phone, bind, get, find_phone. cbv beta iota.
  rewrite H. reflexivity.
Qed.

Lemma edit_phone_old_absent_witness :
  edit_phone "0000000000" "12-34" (mkRecord (mkField "john") [mkField "1234567890"]) =
    (Raise (ValueError "Old phone number not found"),
     mkRecord (mkField "john") [mkField "1234567890"]).
Proof.
  apply (edit_phone_old_absent
           (mkRecord (mkField "john") [mkField "1234567890"]) "0000000000" "12-34").
  intros [p [[<- | []] Hp]]. discriminate Hp.
Defined.

(** * More on [AddressBook] *)

Lemma dict_setitem_absent {V} (d : Py.dict V) k v :
  ~ In k (keys d) -> Py.dict_setitem k v d = (d ++ [(k, v)])%list.
Proof.
  induction d as [|[k0 v0] d IH]; simpl; [reflexivity |].
  destruct (String.eqb_spec k0 k) as [E|N]; [tauto |].
  intros H. rewrite IH; tauto.
Qed.

Lemma dict_setitem_present {V} (d : Py.dict V) k v :
  In k (keys d) ->
  exists l1 v0 l2,
    d = (l1 ++ (k, v0) :: l2)%list /\ ~ In k (keys l1) /\
    Py.dict_setitem k v d = (l1 ++ (k, v) :: l2)%list.
Proof.
  induction d as [|[k0 v0] d IH]; simpl; [tauto |].
  destruct (String.eqb_spec k0 k) as [E|N].
  - intros _. subst. exists [], v0, d. simpl. tauto.
  - intros [H | H]; [contradiction |].
    destruct (IH H) as (l1 & v1 & l2 & -> & Hl1 & E).
    exists ((k0, v0) :: l1), v1, l2. simpl. rewrite E. repeat split; tauto.
Qed.

Lemma dict_delitem_last {V} (d : Py.dict V) k v :
  ~ In k (keys d) -> Py.dict_delitem k (d ++ [(k, v)])%list = d.
Proof.
  induction d as [|[k0 v0] d IH]; simpl.
  - now rewrite String.eqb_refl.
  - destruct (String.eqb_spec k0 k) as [E|N]; [tauto |].
    intros H. rewrite IH; tauto.
Qed.

Lemma dict_get_app_last {V} (d : Py.dict V) k k' v :
  Py.dict_get k' (d ++ [(k, v)])%list =
    match Py.dict_get k' d with
    | Some x => Some x
    | None => if String.eqb k k' then Some v else None
    end.
Proof.
  induction d as [|[k0 v0] d IH]; simpl; [reflexivity |].
  destruct (String.eqb k0 k'); [reflexivity | exact IH].
Qed.

(** X6: [add_record] under a name that is already a key replaces the
    record in place, so the iteration order and the size are kept; under a
    new name it appends the record after all the others. *)
Theorem add_record_position :
  forall (d : AddressBook) (r : ContactRecord),
    (In (value (name r)) (keys d) ->
       exists l1 r0 l2,
         d = (l1 ++ (value (name r), r0) :: l2)%list /\
         ~ In (value (name r)) (keys l1) /\
         add_record r d = (l1 ++ (value (name r), r) :: l2)%list) /\
    (~ In (value (name r)) (keys d) ->
       add_record r d = (d ++ [(value (name r), r)])%list).
Proof.
  intros d r. split.
  - apply dict_setitem_present.
  - apply dict_setitem_absent.
Qed.

Lemma add_record_position_witness :
  add_record (mkRecord (mkField "bob") [])
    [("ann", mkRecord (mkField "ann") [])] =
    [("ann", mkRecord (mkField "ann") []); ("bob", mkRecord (mkField "bob") [])].
Proof.
  apply (proj2 (add_record_position
                  [("ann", mkRecord (mkField "ann") [])]
                  (mkRecord (mkField "bob") []))).
  simpl. intros [H | []]. discriminate H.
Defined.

(** X7: deleting a record just stored under a new name succeeds and gives
    back the directory as it was before the [add_record], order
    included. *)
Theorem delete_after_add_record :
  forall (d : AddressBook) (r : ContactRecord),
    ~ In (value (name r)) (keys d) ->
    delete (value (name r)) (add_record r d) = (Ok tt, d).
Proof.
  intros d r H. unfold add_record. rewrite (dict_setitem_absent d _ r H).
  rewrite delete_present.
  - now rewrite dict_delitem_last.
  - unfold keys. rewrite map_app. apply in_or_app. right. now left.
Qed.

Lemma delete_after_add_record_witness :
  delete "bob"
    (add_record (mkRecord (mkField "bob") []) [("ann", mkRecord (mkField "ann") [])]) =
    (Ok tt, [("ann", mkRecord (mkField "ann") [])]).
Proof.
  apply (delete_after_add_record
           [("ann", mkRecord (mkField "ann") [])] (mkRecord (mkField "bob") [])).
  simpl. intros [H | []]. discriminate H.
Defined.

(** * The decorator and the handlers *)

(** X8: whatever function it wraps, [input_error] hands on a normal
    result unchanged, keeps the state the function left, and never raises
    [ValueError], [KeyError] or [IndexError]: the wrapped call raises only
    what was raised and is none of these three. *)
Theorem input_error_catches :
  forall (S : Type) (func : M S string) (s : S),
    snd (input_error func s) = snd (func s) /\
    (forall r, fst (func s) = Ok r -> fst (input_error func s) = Ok r) /\
    (forall e, fst (input_error func s) = Raise e ->
       e = EOFError /\ fst (func s) = Raise EOFError).
Proof.
  intros S func s. unfold input_error.
  destruct (func s) as [[r | [m | m | m |]] s']; simpl; repeat split;
    try discriminate; try congruence.
Qed.

Lemma add_contact_cases args d :
  (exists e, add_contact args d = (Ok ("Error: " ++ e), d)) \/
  (exists nm phone,
     args = [nm; phone] /\ find nm d = None /\ nm <> EmptyString /\
     validate_phone phone = true /\
     add_contact args d =
       (Ok "Contact added.", add_record (mkRecord (mkField nm) [mkField phone]) d)).
Proof.
  unfold add_contact, input_error, add_contact_func.
  destruct args as [|nm [|phone [|x l]]]; try (left; eexists; reflexivity).
  unfold bind, get, lift, raise, put, ret. cbv beta iota.
  destruct (find nm d) eqn:F; [left; eexists; reflexivity |].
  unfold Record_init, Name_init. destruct nm as [|c nm]; [left; eexists; reflexivity |].
  cbv beta iota. unfold add_phone, bind, lift, get, put, Phone_init.
  destruct (validate_phone phone) eqn:V; simpl; [| left; eexists; reflexivity].
  right. exists (String c nm), phone. repeat split; trivial. discriminate.
Qed.

(** X9: a successful [add] stores, after all the other contacts, a record
    with the given name and the given phone as its only phone, and [phone]
    for that name then answers with the name, a colon and that phone. *)
Theorem add_contact_then_show_phone :
  forall (d : AddressBook) (nm phone : string),
    nm <> EmptyString ->
    find nm d = None ->
    validate_phone phone = true ->
    add_contact [nm; phone] d =
      (Ok "Contact added.", (d ++ [(nm, mkRecord (mkField nm) [mkField phone])])%list) /\
    show_phone [nm] (snd (add_contact [nm; phone] d)) =
      (Ok (nm ++ ": " ++ phone), snd (add_contact [nm; phone] d)).
Proof.
  intros d nm phone Hnm F V.
  assert (E : add_contact [nm; phone] d =
              (Ok "Contact added.",
               (d ++ [(nm, mkRecord (mkField nm) [mkField phone])])%list)).
  { destruct (add_contact_cases [nm; phone] d)
      as [[e E] | (nm' & phone' & [= <- <-] & _ & _ & _ & E)].
    - exfalso. revert E. unfold add_contact, input_error, add_contact_func.
      unfold bind, get, lift, raise, put, ret. cbv beta iota. rewrite F.
      unfold Record_init, Name_init. destruct nm; [now contradiction Hnm |].
      cbv beta iota. unfold add_phone, bind, lift, get, put, Phone_init.
      rewrite V. simpl. discriminate.
    - rewrite E. unfold add_record. simpl. rewrite dict_setitem_absent; [reflexivity |].
      now apply dict_get_none. }
  rewrite E. split; [reflexivity |]. simpl.
  unfold show_phone, input_error, show_phone_func, bind, get, ret. cbv beta iota.
  unfold find in *. rewrite dict_get_app_last, F, String.eqb_refl. reflexivity.
Qed.

Lemma add_contact_then_show_phone_witness :
  add_contact ["john"; "1234567890"] [("ann", mkRecord (mkField "ann") [])] =
    (Ok "Contact added.",
     [("ann", mkRecord (mkField "ann") []);
      ("john", mkRecord (mkField "john") [mkField "1234567890"])]).
Proof.
  apply (proj1 (add_contact_then_show_phone
                  [("ann", mkRecord (mkField "ann") [])] "john" "1234567890"
                  ltac:(discriminate) eq_refl eq_refl)).
Defined.

(** X10: [add] never changes or removes a contact that is already in the
    directory, and whenever its answer is not [Contact added.] (wrong
    number of arguments, name already present, empty name, invalid phone)
    the directory is exactly what it was: a record whose phone is refused
    is not stored. *)
Theorem add_contact_keeps_existing :
  forall (args : list string) (d : AddressBook),
    (forall k r, find k d = Some r -> find k (snd (add_contact args d)) = Some r) /\
    (fst (add_contact args d) <> Ok "Contact added." -> snd (add_contact args d) = d).
Proof.
  intros args d.
  destruct (add_contact_cases args d)
    as [[e E] | (nm & phone & _ & F & _ & _ & E)]; rewrite E; simpl.
  - split; auto.
  - split; [| intros H; now contradiction H].
    intros k r Hk. unfold find, add_record in *. simpl.
    rewrite dict_get_setitem_ne; [exact Hk |]. intros ->. congruence.
Qed.

Lemma add_contact_keeps_existing_witness :
  snd (add_contact ["bob"; "12-34"] [("ann", mkRecord (mkField "ann") [])]) =
    [("ann", mkRecord (mkField "ann") [])].
Proof.
  apply (proj2 (add_contact_keeps_existing
                  ["bob"; "12-34"] [("ann", mkRecord (mkField "ann") [])])).
  discriminate.
Defined.

Lemma dict_get_some_key {V} (d : Py.dict V) k v :
  Py.dict_get k d = Some v -> In k (keys d).
Proof.
  intros H. destruct (in_dec string_dec k (keys d)) as [Hin | Hout]; [exact Hin |].
  apply dict_get_none in Hout. congruence.
Qed.

Lemma change_contact_run d nm new record first rest :
  find nm d = Some record ->
  phones record = first :: rest ->
  change_contact [nm; new] d =
    if validate_phone new
    then (Ok "Contact updated.",
          Py.dict_setitem nm (mkRecord (name record) (rest ++ [mkField new])) d)
    else (Ok "Error: Phone number must be 10 digits",
          Py.dict_setitem nm (mkRecord (name record) rest) d).
Proof.
  intros F Hp.
  assert (Hno : ~ has_phone (value first) []) by (intros [q [[] _]]).
  unfold change_contact, input_error, change_contact_func, bind at 1, get.
  cbv beta iota. rewrite F, Hp. cbv zeta.
  destruct (validate_phone new) eqn:V.
  - rewrite (edit_phone_first_valid record (value first) new [] first rest Hp eq_refl Hno V).
    reflexivity.
  - rewrite (edit_phone_first_invalid record (value first) new [] first rest Hp eq_refl Hno V).
    reflexivity.
Qed.

Lemma change_contact_cases args d :
  (exists msg, change_contact args d = (Ok msg, d)) \/
  (exists nm new record msg l,
     args = [nm; new] /\ find nm d = Some record /\
     change_contact args d = (Ok msg, Py.dict_setitem nm (mkRecord (name record) l) d)).
Proof.
  destruct args as [|nm [|new [|x l]]]; try (left; eexists; reflexivity).
  destruct (find nm d) as [record |] eqn:F.
  - destruct (phones record) as [|first rest] eqn:Hp.
    + left. eexists. now apply (change_contact_no_phone d nm new record).
    + right. rewrite (change_contact_run d nm new record first rest F Hp).
      destruct (validate_phone new); do 5 eexists; repeat split; eauto.
  - left. unfold change_contact, input_error, change_contact_func, bind, get.
    cbv beta iota. rewrite F. eexists. reflexivity.
Qed.

Lemma change_contact_keys args d :
  keys (snd (change_contact args d)) = keys d.
Proof.
  destruct (change_contact_cases args d)
    as [[msg ->] | (nm & new & record & msg & l & _ & F & ->)]; [reflexivity |].
  simpl. apply keys_setitem_present. now apply dict_get_some_key in F.
Qed.

(** X11: a [change] with a valid phone, sent to a contact that has phones,
    answers [Contact updated.], removes the contact's first phone and
    appends the new one after the remaining phones; the contact keeps its
    place in the directory, no key is added or removed, and the other
    contacts are what they were. *)
Theorem change_contact_replaces_first :
  forall (d : AddressBook) (nm new : string) (record : ContactRecord)
         (first : Phone) (rest : list Phone),
    find nm d = Some record ->
    phones record = first :: rest ->
    validate_phone new = true ->
    change_contact [nm; new] d =
      (Ok "Contact updated.",
       Py.dict_setitem nm (mkRecord (name record) (rest ++ [mkField new])) d) /\
    find nm (snd (change_contact [nm; new] d)) =
      Some (mkRecord (name record) (rest ++ [mkField new])) /\
    keys (snd (change_contact [nm; new] d)) = keys d /\
    (forall k, k <> nm -> find k (snd (change_contact [nm; new] d)) = find k d).
Proof.
  intros d nm new record first rest F Hp V.
  rewrite (change_contact_run d nm new record first rest F Hp), V. simpl.
  repeat split.
  - apply dict_get_setitem_eq.
  - apply keys_setitem_present. now apply dict_get_some_key in F.
  - intros k Hk. now apply dict_get_setitem_ne.
Qed.

Lemma change_contact_replaces_first_witness :
  change_contact ["john"; "1112223333"]
    [("john", mkRecord (mkField "john") [mkField "1234567890"])] =
    (Ok "Contact updated.",
     Py.dict_setitem "john" (mkRecord (mkField "john") ([] ++ [mkField "1112223333"]))
       [("john", mkRecord (mkField "john") [mkField "1234567890"])]).
Proof.
  apply (proj1 (change_contact_replaces_first
                  [("john", mkRecord (mkField "john") [mkField "1234567890"])]
                  "john" "1112223333"
                  (mkRecord (mkField "john") [mkField "1234567890"])
                  (mkField "1234567890") [] eq_refl eq_refl eq_refl)).
Defined.

(** X12: [change] never adds or removes a contact, whatever its arguments
    and its answer; sent to a name that has no record it answers [Error:
    Contact not found.], and with a number of arguments other than two it
    answers that the command requires exactly two, in both cases without
    touching the directory. *)
Theorem change_contact_keeps_keys :
  forall (args : list string) (d : AddressBook),
    keys (snd (change_contact args d)) = keys d /\
    (forall nm new, args = [nm; new] -> find nm d = None ->
       change_contact args d = (Ok "Error: Contact not found.", d)) /\
    (List.length args <> 2 ->
       change_contact args d =
         (Ok "Error: Command requires exactly 2 arguments (name and new phone).", d)).
Proof.
  intros args d. repeat split.
  - apply change_contact_keys.
  - intros nm new -> F.
    unfold change_contact, input_error, change_contact_func, bind, get.
    cbv beta iota. now rewrite F.
  - intros H. destruct args as [|nm [|new [|x l]]]; try reflexivity.
    now contradiction H.
Qed.

Lemma change_contact_keeps_keys_witness :
  change_contact ["ghost"; "1234567890"] [("ann", mkRecord (mkField "ann") [])] =
    (Ok "Error: Contact not found.", [("ann", mkRecord (mkField "ann") [])]).
Proof.
  apply (proj1 (proj2 (change_contact_keeps_keys
                         ["ghost"; "1234567890"] [("ann", mkRecord (mkField "ann") [])]))
           "ghost" "1234567890" eq_refl eq_refl).
Defined.

Lemma show_phone_state args d : snd (show_phone args d) = d.
Proof.
  unfold show_phone, input_error, show_phone_func.
  destruct args as [|nm [|x l]]; try reflexivity.
  unfold bind, get, ret, raise. cbv beta iota. now destruct (find nm d).
Qed.

Lemma show_all_state d : snd (show_all d) = d.
Proof.
  unfold show_all, input_error, show_all_func, bind, get, ret. cbv beta iota.
  now destruct (Py.dict_len d).
Qed.

Lemma AddressBook_str_starts d kv :
  exists rest, AddressBook_str (kv :: d) = String "C" rest.
Proof.
  unfold AddressBook_str, Py.dict_values. simpl map.
  destruct (map Record_str (map snd d)) as [|y ys].
  - simpl. unfold Record_str. simpl. eexists. reflexivity.
  - change (Py.join newline (Record_str (snd kv) :: y :: ys))
      with (Record_str (snd kv) ++ newline ++ Py.join newline (y :: ys)).
    unfold Record_str. simpl. eexists. reflexivity.
Qed.

(** X13: [phone] and [all] only read: they leave the directory as it was
    whatever they answer.  [phone] with a number of arguments other than
    one answers [Error: Invalid command format.] and for a name without
    record [Error: Contact not found.]; [all] answers [No contacts found.]
    exactly when the directory is empty. *)
Theorem show_commands_read_only :
  forall (args : list string) (d : AddressBook),
    snd (show_phone args d) = d /\
    snd (show_all d) = d /\
    (List.length args <> 1 ->
       fst (show_phone args d) = Ok "Error: Invalid command format.") /\
    (forall nm, args = [nm] -> find nm d = None ->
       fst (show_phone args d) = Ok "Error: Contact not found.") /\
    (fst (show_all d) = Ok "No contacts found." <-> d = []).
Proof.
  intros args d.
  split; [apply show_phone_state |]. split; [apply show_all_state |].
  split; [| split].
  - intros H. destruct args as [|nm [|x l]]; try reflexivity. now contradiction H.
  - intros nm -> F. unfold show_phone, input_error, show_phone_func, bind, get.
    cbv beta iota. now rewrite F.
  - destruct d as [|kv d]; [split; reflexivity |].
    split; [| discriminate]. intros H. exfalso. revert H.
    unfold show_all, input_error, show_all_func, bind, get, ret. cbv beta iota.
    simpl Py.dict_len. cbv iota. simpl fst.
    destruct (AddressBook_str_starts d kv) as [rest ->]. discriminate.
Qed.

Lemma show_commands_read_only_witness :
  fst (show_phone ["ghost"] [("ann", mkRecord (mkField "ann") [])]) =
    Ok "Error: Contact not found.".
Proof.
  apply (proj1 (proj2 (proj2 (proj2 (show_commands_read_only
                  ["ghost"] [("ann", mkRecord (mkField "ann") [])]))))
           "ghost" eq_refl eq_refl).
Defined.

(** * More on [parse_input] *)

Lemma is_word_single c : Py.char_isspace c = false -> is_word (String c EmptyString).
Proof. intros H. split; [discriminate |]. simpl. now rewrite H. Qed.

Lemma is_word_cons c w :
  Py.char_isspace c = false -> is_word w -> is_word (String c w).
Proof.
  intros H [_ Hw]. split; [discriminate |]. simpl. now rewrite H, Hw.
Qed.

Lemma split_words s : Forall is_word (Py.split s).
Proof.
  induction s as [|c s IH]; [constructor |].
  rewrite split_cons. destruct (Py.char_isspace c) eqn:E; [exact IH |].
  destruct (starts_blank s).
  - constructor; [now apply is_word_single | exact IH].
  - destruct (Py.split s) as [|w ws].
    + constructor; [now apply is_word_single | constructor].
    + inversion IH; subst. constructor; [now apply is_word_cons | assumption].
Qed.

Lemma is_word_lower w : is_word w -> is_word (Py.lower w).
Proof.
  intros [Hne Hw]. split.
  - destruct w; [now contradiction Hne | discriminate].
  - clear Hne. induction w as [|c w IH]; simpl in *; [reflexivity |].
    apply andb_true_iff in Hw. destruct Hw as [Hc Hw].
    now rewrite char_isspace_lower, Hc, IH.
Qed.

Lemma split_word_prefix w s :
  is_word w -> starts_blank s = true -> Py.split (w ++ s) = w :: Py.split s.
Proof.
  intros [Hne Hw] Hs. induction w as [|c w IH]; [now contradiction Hne |].
  simpl in Hw. apply andb_true_iff in Hw. destruct Hw as [Hc Hw].
  apply negb_true_iff in Hc.
  change (String c w ++ s) with (String c (w ++ s)). rewrite split_cons, Hc.
  destruct w as [|c' w].
  - simpl. now rewrite Hs.
  - rewrite IH by (trivial; discriminate).
    simpl in Hw. apply andb_true_iff in Hw. destruct Hw as [Hc' _].
    apply negb_true_iff in Hc'. simpl. now rewrite Hc'.
Qed.

Lemma append_empty s : s ++ EmptyString = s.
Proof. induction s as [|c s IH]; simpl; [reflexivity | now rewrite IH]. Qed.

Lemma split_join_words ws :
  Forall is_word ws -> Py.split (Py.join " " ws) = ws.
Proof.
  induction ws as [|x ws IH]; intros H; [reflexivity |].
  inversion H as [|? ? Hx Hws]; subst. destruct ws as [|y ws].
  - simpl. rewrite <- (append_empty x) at 1. now rewrite split_word_prefix.
  - change (Py.join " " (x :: y :: ws)) with (x ++ " " ++ Py.join " " (y :: ws)).
    rewrite split_word_prefix by (trivial; reflexivity).
    change (" " ++ Py.join " " (y :: ws)) with (String " " (Py.join " " (y :: ws))).
    rewrite split_cons. simpl Py.char_isspace. cbv iota. now rewrite IH.
Qed.

(** X14: the command word and the arguments that [parse_input] returns
    are never empty and contain no whitespace character, so no handler
    called from the loop ever receives an empty name. *)
Theorem parse_input_gives_words :
  forall (line cmd : string) (args : list string),
    parse_input line = Ok (cmd, args) ->
    Forall is_word (cmd :: args).
Proof.
  intros line cmd args. rewrite parse_input_words.
  destruct (map Py.lower (Py.split line)) as [|w ws] eqn:E; [discriminate |].
  intros [= <- <-]. rewrite <- E.
  apply Forall_forall. intros x Hx. apply in_map_iff in Hx.
  destruct Hx as [y [<- Hy]]. apply is_word_lower.
  pose proof (split_words line) as H. rewrite Forall_forall in H. now apply H.
Qed.

Lemma parse_input_gives_words_witness :
  Forall is_word ["add"; "john"; "1234567890"].
Proof.
  apply (parse_input_gives_words "  ADD   John 1234567890 " "add"
           ["john"; "1234567890"]).
  reflexivity.
Defined.

(** X15: [parse_input] does not see the letter case of the line nor the
    whitespace around it: the lowercased line and the stripped line are
    parsed as the line itself. *)
Theorem parse_input_ignores_case_and_margins :
  forall line : string,
    parse_input (Py.lower line) = parse_input line /\
    parse_input (Py.strip line) = parse_input line.
Proof.
  intros line. rewrite !parse_input_words. split.
  - rewrite split_lower, map_map.
    rewrite (map_ext (fun x => Py.lower (Py.lower x)) Py.lower); [reflexivity |].
    apply lower_idem.
  - unfold Py.strip. now rewrite split_rstrip, split_lstrip.
Qed.

(** X16: [parse_input] undoes the joining of words with single spaces, up
    to letter case: a line made of a command word and arguments, separated
    by one space each, is parsed into these very words in lower case. *)
Theorem parse_input_of_joined_words :
  forall (cmd : string) (args : list string),
    Forall is_word (cmd :: args) ->
    parse_input (Py.join " " (cmd :: args)) = Ok (Py.lower cmd, map Py.lower args).
Proof.
  intros cmd args H. rewrite parse_input_words, split_join_words by exact H.
  reflexivity.
Qed.

Lemma parse_input_of_joined_words_witness :
  parse_input (Py.join " " ["Change"; "John"; "1112223333"]) =
    Ok (Py.lower "Change", map Py.lower ["John"; "1112223333"]).
Proof.
  apply (parse_input_of_joined_words "Change" ["John"; "1112223333"]).
  repeat constructor; discriminate.
Defined.

(** * More on the loop of [main] *)

Lemma turn_contacts_print r : turn_contacts (print_result r) = snd r.
Proof. destruct r as [[msg | e] d]; reflexivity. Qed.

Lemma book_inv_setitem d nm r :
  book_inv d -> nm = value (name r) ->
  phones_valid r -> List.length (phones r) <= 1 ->
  book_inv (Py.dict_setitem nm r d).
Proof.
  intros (Hwf & Hkey & Hph) -> Hv Hl. repeat split.
  - now apply dict_wf_setitem.
  - now apply key_is_name_add_record.
  - apply in_dict_setitem in H. destruct H as [[= -> ->] | H]; [exact Hv | now apply (Hph k)].
  - apply in_dict_setitem in H. destruct H as [[= -> ->] | H]; [exact Hl | now apply (Hph k)].
Qed.

Lemma book_inv_add_contact args d :
  book_inv d -> book_inv (snd (add_contact args d)).
Proof.
  intros Hinv.
  destruct (add_contact_cases args d)
    as [[e ->] | (nm & phone & _ & _ & _ & V & ->)]; [exact Hinv |].
  simpl. apply book_inv_setitem;
    [exact Hinv | reflexivity | repeat constructor; exact V | simpl; lia].
Qed.

Lemma book_inv_change_contact args d :
  book_inv d -> book_inv (snd (change_contact args d)).
Proof.
  intros Hinv.
  destruct args as [|nm [|new [|x l]]]; try exact Hinv.
  destruct (find nm d) as [record |] eqn:F.
  - pose proof (dict_get_in d nm record F) as Hin.
    destruct Hinv as (Hwf & Hkey & Hph). destruct (Hph nm record Hin) as [Hv Hl].
    assert (Hinv : book_inv d) by (repeat split; trivial; now apply (Hph k)).
    destruct (phones record) as [|first rest] eqn:Hp.
    + now rewrite (proj2 (change_contact_no_phone d nm new record F Hp)).
    + rewrite (change_contact_run d nm new record first rest F Hp).
      assert (rest = []) as -> by (destruct rest; [reflexivity | simpl in Hl; lia]).
      destruct (validate_phone new) eqn:V; simpl;
        (apply book_inv_setitem;
           [exact Hinv | exact (Hkey nm record Hin) | | simpl; lia]).
      * repeat constructor. exact V.
      * constructor.
  - unfold change_contact, input_error, change_contact_func, bind, get.
    cbv beta iota. now rewrite F.
Qed.

(** The directory after a turn, by command word. *)
Lemma main_turn_contacts line contacts :
  turn_contacts (main_turn line contacts) =
    match parse_input line with
    | Ok (command, args) =>
        if String.eqb command "close" || String.eqb command "exit"
          || String.eqb command "hello" then contacts
        else if String.eqb command "add" then snd (add_contact args contacts)
        else if String.eqb command "change" then snd (change_contact args contacts)
        else contacts
    | Raise _ => contacts
    end.
Proof.
  unfold main_turn. destruct (parse_input line) as [[command args] | e]; [| reflexivity].
  destruct (String.eqb command "close" || String.eqb command "exit"); [reflexivity |].
  simpl orb.
  destruct (String.eqb command "hello"); [reflexivity |].
  destruct (String.eqb command "add"); [apply turn_contacts_print |].
  destruct (String.eqb command "change"); [apply turn_contacts_print |].
  destruct (String.eqb command "phone");
    [rewrite turn_contacts_print; apply show_phone_state |].
  destruct (String.eqb command "all");
    [rewrite turn_contacts_print; apply show_all_state |].
  destruct (String.eqb command "help"); reflexivity.
Qed.

Lemma main_loop_after_break before line after contacts :
  (forall c, main_turn line c = Break "Good bye!" c) ->
  main_loop (before ++ line :: after) contacts = main_loop (before ++ [line]) contacts.
Proof.
  intros Hb. revert contacts. induction before as [|l before IH]; intros contacts; simpl.
  - now rewrite Hb.
  - destruct (main_turn l contacts); try reflexivity. now rewrite IH.
Qed.

(** X17: the empty directory has unique keys, every record under its own
    name and, in every record, valid phones and at most one of them; every
    turn of the loop, whatever the line, leaves a directory with these
    properties when it found one: no sequence of commands stores an
    invalid phone or gives a contact two phones. *)
Theorem main_turn_keeps_book_invariant :
  book_inv [] /\
  (forall (line : string) (contacts : AddressBook),
     book_inv contacts -> book_inv (turn_contacts (main_turn line contacts))).
Proof.
  split.
  - split; [constructor | split]; intros k r [].
  - intros line contacts Hinv. rewrite main_turn_contacts.
    destruct (parse_input line) as [[command args] | e]; [| exact Hinv].
    destruct (String.eqb command "close" || String.eqb command "exit"
              || String.eqb command "hello"); [exact Hinv |].
    destruct (String.eqb command "add"); [now apply book_inv_add_contact |].
    destruct (String.eqb command "change"); [now apply book_inv_change_contact |].
    exact Hinv.
Qed.

Lemma main_turn_keeps_book_invariant_witness :
  book_inv (turn_contacts (main_turn "add john 1234567890" [])).
Proof.
  apply (proj2 main_turn_keeps_book_invariant "add john 1234567890" []).
  apply (proj1 main_turn_keeps_book_invariant).
Defined.

(** X18: a line whose first word is [close] or [exit], in any letter
    case, prints [Good bye!] and ends the loop without touching the
    directory; the lines after it are never read, so the run is that of the
    input cut after this line. *)
Theorem exit_ends_the_loop :
  forall (before after : list string) (line cmd : string) (args : list string)
         (contacts : AddressBook),
    parse_input line = Ok (cmd, args) ->
    cmd = "close" \/ cmd = "exit" ->
    main_turn line contacts = Break "Good bye!" contacts /\
    main_loop (line :: after) contacts = (["Good bye!"], Exited) /\
    main (before ++ line :: after) = main (before ++ [line]).
Proof.
  intros before after line cmd args contacts Hp Hc.
  assert (Hb : forall c, main_turn line c = Break "Good bye!" c).
  { intros c. unfold main_turn. rewrite Hp. destruct Hc as [-> | ->]; reflexivity. }
  repeat split.
  - apply Hb.
  - simpl. now rewrite Hb.
  - unfold main. now rewrite (main_loop_after_break before line after [] Hb).
Qed.

Lemma exit_ends_the_loop_witness :
  main_turn " EXIT now" [] = Break "Good bye!" [] /\
  main_loop (" EXIT now" :: ["all"]) [] = (["Good bye!"], Exited) /\
  main (["hello"] ++ " EXIT now" :: ["all"]) = main (["hello"] ++ [" EXIT now"]).
Proof.
  apply (exit_ends_the_loop ["hello"] ["all"] " EXIT now" "exit" ["now"] []).
  - reflexivity.
  - now right.
Defined.

(** X19: when every line of the input has at least one word, no exception
    of a handler or of the parser reaches the top level: the run ends by
    [close] or [exit], or by the [EOFError] of [input] once the lines are
    used up. *)
Theorem main_without_blank_lines :
  forall stdin : list string,
    Forall (fun line => Py.split line <> []) stdin ->
    snd (main stdin) = Exited \/ snd (main stdin) = Crashed EOFError.
Proof.
  intros stdin H. unfold main.
  assert (G : forall contacts,
             snd (main_loop stdin contacts) = Exited \/
             snd (main_loop stdin contacts) = Crashed EOFError).
  { induction H as [|line stdin Hl _ IH]; intros contacts; simpl; [now right |].
    destruct (main_turn_answers_words line contacts Hl) as [(msg & c' & ->) | ->];
      [| now left].
    specialize (IH c'). destruct (main_loop stdin c'). exact IH. }
  specialize (G []). destruct (main_loop stdin []). exact G.
Qed.

Lemma main_without_blank_lines_witness :
  snd (main ["add john 1234567890"; "change john 12"; "change john 1112223333";
             "phone"; "bogus"]) = Exited \/
  snd (main ["add john 1234567890"; "change john 12"; "change john 1112223333";
             "phone"; "bogus"]) = Crashed EOFError.
Proof.
  apply (main_without_blank_lines
           ["add john 1234567890"; "change john 12"; "change john 1112223333";
            "phone"; "bogus"]).
  repeat constructor; discriminate.
Defined.

(** X20: only [add] and [change] can modify the directory: a turn on a
    line whose command word is any other word, a known command or not,
    leaves the directory exactly as it was. *)
Theorem only_add_and_change_modify :
  forall (line cmd : string) (args : list string) (contacts : AddressBook),
    parse_input line = Ok (cmd, args) ->
    cmd <> "add" -> cmd <> "change" ->
    turn_contacts (main_turn line contacts) = contacts.
Proof.
  intros line cmd args contacts Hp Ha Hc. rewrite main_turn_contacts, Hp.
  apply String.eqb_neq in Ha, Hc. rewrite Ha, Hc.
  now destruct (String.eqb cmd "close" || String.eqb cmd "exit" || String.eqb cmd "hello").
Qed.

Lemma only_add_and_change_modify_witness :
  turn_contacts (main_turn "phone ann"
                   [("ann", mkRecord (mkField "ann") [mkField "1234567890"])]) =
    [("ann", mkRecord (mkField "ann") [mkField "1234567890"])].
Proof.
  apply (only_add_and_change_modify "phone ann" "phone" ["ann"]
           [("ann", mkRecord (mkField "ann") [mkField "1234567890"])]).
  - reflexivity.
  - discriminate.
  - discriminate.
Defined.

(** * Creation of records, and what the loop never does *)

(** X21: [Record] refuses the empty name with [ValueError] ([Name cannot
    be empty]) and accepts every other string as it is, without trimming:
    the new record renders its name verbatim, has no phone, so that no
    lookup finds one, and renders with nothing after [phones: ]. *)
Theorem Record_init_correct :
  forall nm : string,
    (nm = EmptyString ->
       Record_init nm = Raise (ValueError "Name cannot be empty")) /\
    (nm <> EmptyString ->
       exists r,
         Record_init nm = Ok r /\ Field_str (name r) = nm /\ phones r = [] /\
         (forall s, find_phone s r = None) /\
         Record_str r = "Contact name: " ++ nm ++ ", phones: ").
Proof.
  intros nm. split.
  - intros ->. reflexivity.
  - intros H. destruct nm as [|c nm]; [now contradiction H |].
    exists (mkRecord (mkField (String c nm)) []). repeat split.
Qed.

Lemma Record_init_correct_witness :
  exists r,
    Record_init "  " = Ok r /\ Field_str (name r) = "  " /\ phones r = [] /\
    (forall s, find_phone s r = None) /\
    Record_str r = "Contact name: " ++ "  " ++ ", phones: ".
Proof.
  apply (proj2 (Record_init_correct "  ")). discriminate.
Defined.

(** X22: adding a valid number that the record does not hold and then
    removing it succeeds and gives back the record as it was. *)
Theorem remove_phone_after_add_phone :
  forall (r : ContactRecord) (p : string),
    validate_phone p = true ->
    ~ has_phone p (phones r) ->
    (add_phone p ;;; remove_phone p) r = (Ok tt, r).
Proof.
  intros r p V H. unfold bind. rewrite (add_phone_valid r p V).
  rewrite (remove_phone_first _ p (phones r) (mkField p) []); trivial.
  simpl. rewrite app_nil_r. now destruct r.
Qed.

Lemma remove_phone_after_add_phone_witness :
  (add_phone "1234567890" ;;; remove_phone "1234567890")
    (mkRecord (mkField "john") [mkField "5555555555"]) =
    (Ok tt, mkRecord (mkField "john") [mkField "5555555555"]).
Proof.
  apply (remove_phone_after_add_phone
           (mkRecord (mkField "john") [mkField "5555555555"]) "1234567890" eq_refl).
  intros [q [[<- | []] Hq]]. discriminate Hq.
Defined.

(** X23: no command removes or reorders contacts: after a turn of the
    loop, whatever the line, the names of the directory are the names it
    had, in the same order, followed by at most one new name. *)
Theorem main_turn_never_removes_a_contact :
  forall (line : string) (contacts : AddressBook),
    exists added,
      keys (turn_contacts (main_turn line contacts)) = (keys contacts ++ added)%list /\
      List.length added <= 1.
Proof.
  intros line contacts. rewrite main_turn_contacts.
  assert (Same : exists added,
             keys contacts = (keys contacts ++ added)%list /\ List.length added <= 1).
  { exists []. rewrite app_nil_r. split; [reflexivity | simpl; lia]. }
  destruct (parse_input line) as [[command args] | e]; [| exact Same].
  destruct (String.eqb command "close" || String.eqb command "exit"
            || String.eqb command "hello"); [exact Same |].
  destruct (String.eqb command "add").
  { destruct (add_contact_cases args contacts)
      as [[e ->] | (nm & phone & _ & F & _ & _ & ->)]; [exact Same |].
    exists [nm]. simpl. split; [| lia].
    unfold add_record. simpl. rewrite dict_setitem_absent by now apply dict_get_none.
    unfold keys. now rewrite map_app. }
  destruct (String.eqb command "change"); [| exact Same].
  rewrite change_contact_keys. exact Same.
Qed.
